(** * snack-counter: the persistence layer and the counter handlers

    A shallow embedding of the server of the snack counter.  Two variants of
    the server are in the repository:

    - [server.js], the multi-room server: every access code has its own data
      file ([getDataFile]); embedded in [Module Rooms];
    - the single-room server (one [DATA_FILE]); embedded in [Module Single].

    Both share the JavaScript values they compute on, the file system they
    persist to, and the body of the atomic write. *)

From Stdlib Require Import ZArith Lia Ascii String DecimalString DecimalPos.
From stdpp Require Import gmap strings list.

Local Open Scope string_scope.
#[local] Set Warnings "-register-all".

(** ** JavaScript values *)

(** Numbers: the counters and epoch-millisecond timestamps of the program are
    integers, kept as [Z]; [NaN] is what [parseInt] and arithmetic on it
    produce. *)
Inductive number :=
| Num (z : Z)
| NaN.

(** A value as [JSON.parse] builds it and as the handlers mutate it.  An
    object is the ordered list of its own properties; an array has its
    elements and, as any JavaScript object, named properties of its own
    (which [JSON.parse] never creates and [JSON.stringify] never writes). *)
Inductive value :=
| VUndefined
| VNull
| VBool (b : bool)
| VNum (n : number)
| VStr (s : string)
| VArr (elems : list value) (props : list (string * value))
| VObj (fields : list (string * value)).

Inductive jstype := TUndefined | TObject | TBoolean | TNumber | TString.

Definition typeof (v : value) : jstype :=
  match v with
  | VUndefined => TUndefined
  | VNull => TObject
  | VBool _ => TBoolean
  | VNum _ => TNumber
  | VStr _ => TString
  | VArr _ _ => TObject
  | VObj _ => TObject
  end.

Definition jstype_eqb (a b : jstype) : bool :=
  match a, b with
  | TUndefined, TUndefined | TObject, TObject | TBoolean, TBoolean
  | TNumber, TNumber | TString, TString => true
  | _, _ => false
  end.

(** ToBoolean. *)
Definition truthy (v : value) : bool :=
  match v with
  | VUndefined | VNull => false
  | VBool b => b
  | VNum (Num z) => negb (z =? 0)%Z
  | VNum NaN => false
  | VStr s => negb (String.eqb s "")
  | VArr _ _ | VObj _ => true
  end.

Definition isArray (v : value) : bool :=
  match v with VArr _ _ => true | _ => false end.

(** [!data || typeof data !== 'object'] is false: a non-null object. *)
Definition is_object (v : value) : bool :=
  truthy v && jstype_eqb (typeof v) TObject.

Fixpoint assoc_get (k : string) (l : list (string * value)) : value :=
  match l with
  | [] => VUndefined
  | (k', v) :: l' => if String.eqb k k' then v else assoc_get k l'
  end.

Fixpoint assoc_set (k : string) (x : value) (l : list (string * value))
  : list (string * value) :=
  match l with
  | [] => [(k, x)]
  | (k', v) :: l' =>
      if String.eqb k k' then (k', x) :: l' else (k', v) :: assoc_set k x l'
  end.

(** [v.k] for a named property [k] (not an array index, not [length]) of a
    value that is not null or undefined. *)
Definition get (v : value) (k : string) : value :=
  match v with
  | VObj f => assoc_get k f
  | VArr _ p => assoc_get k p
  | _ => VUndefined
  end.

(** [v.k = x], in place; on a primitive the assignment is dropped (the
    servers run in sloppy mode). *)
Definition set (v : value) (k : string) (x : value) : value :=
  match v with
  | VObj f => VObj (assoc_set k x f)
  | VArr e p => VArr e (assoc_set k x p)
  | _ => v
  end.

(** What [JSON.parse (JSON.stringify v)] is, for an object or array [v]:
    [NaN] and, inside arrays, [undefined] become [null]; properties whose
    value is [undefined] and the named properties of arrays are not written. *)
Fixpoint to_json (v : value) : value :=
  match v with
  | VUndefined => VNull
  | VNum NaN => VNull
  | VArr e _ => VArr (map to_json e) []
  | VObj f =>
      VObj ((fix fields (l : list (string * value)) : list (string * value) :=
               match l with
               | [] => []
               | (k, x) :: l' =>
                   match x with
                   | VUndefined => fields l'
                   | _ => (k, to_json x) :: fields l'
                   end
               end) f)
  | _ => v
  end.

(** Values that [JSON.stringify] writes without loss. *)
Fixpoint json_clean (v : value) : bool :=
  match v with
  | VUndefined => false
  | VNum NaN => false
  | VArr e p =>
      forallb json_clean e && match p with [] => true | _ => false end
  | VObj f =>
      (fix fields (l : list (string * value)) : bool :=
         match l with
         | [] => true
         | (_, x) :: l' => json_clean x && fields l'
         end) f
  | _ => true
  end.

(** ** Numbers, [parseInt] and [toString] *)

Definition nsub (a b : number) : number :=
  match a, b with
  | Num x, Num y => Num (x - y)
  | _, _ => NaN
  end.

Definition nadd (a b : number) : number :=
  match a, b with
  | Num x, Num y => Num (x + y)
  | _, _ => NaN
  end.

(** [a < b]: false when an operand is [NaN]. *)
Definition nlt (a b : number) : bool :=
  match a, b with
  | Num x, Num y => (x <? y)%Z
  | _, _ => false
  end.

(** [Math.ceil (a / b)] for integers [a] and [b > 0]. *)
Definition ceil_div (a b : Z) : Z := (- ((- a) / b))%Z.

Definition ceil_thousandth (a : number) : number :=
  match a with
  | Num x => Num (ceil_div x 1000)
  | NaN => NaN
  end.

(** [n.toString()] of an integer. *)
Definition toString (z : Z) : string := NilZero.string_of_int (Z.to_int z).

Definition is_space (c : ascii) : bool :=
  let n := nat_of_ascii c in
  (Nat.leb 9 n && Nat.leb n 13) || Nat.eqb n 32.

Fixpoint skip_spaces (s : string) : string :=
  match s with
  | String c s' => if is_space c then skip_spaces s' else s
  | EmptyString => s
  end.

Definition digit_value (c : ascii) : option Z :=
  let n := Z.of_nat (nat_of_ascii c) in
  if ((48 <=? n) && (n <=? 57))%Z then Some (n - 48)%Z
  else if ((97 <=? n) && (n <=? 122))%Z then Some (n - 87)%Z
  else if ((65 <=? n) && (n <=? 90))%Z then Some (n - 55)%Z
  else None.

(** The longest prefix of digits of the radix; [None] when it is empty. *)
Fixpoint parse_digits (radix : Z) (s : string) (acc : option Z) : option Z :=
  match s with
  | String c s' =>
      match digit_value c with
      | Some d =>
          if (d <? radix)%Z
          then parse_digits radix s'
                 (Some (radix * (match acc with Some a => a | None => 0 end) + d)%Z)
          else acc
      | None => acc
      end
  | EmptyString => acc
  end.

(** [parseInt(s)] without a radix: leading white space, a sign, [0x] for
    base 16, then digits; anything after them is ignored. *)
Definition parseInt (s : string) : number :=
  let s1 := skip_spaces s in
  let '(sign, s2) :=
    match s1 with
    | String "-"%char r => ((-1)%Z, r)
    | String "+"%char r => (1%Z, r)
    | _ => (1%Z, s1)
    end in
  let '(radix, s3) :=
    match s2 with
    | String "0"%char (String "x"%char r) => (16%Z, r)
    | String "0"%char (String "X"%char r) => (16%Z, r)
    | _ => (10%Z, s2)
    end in
  match parse_digits radix s3 None with
  | Some n => Num (sign * n)
  | None => NaN
  end.

(** ** The file system *)

(** The text of a file is what [JSON.parse] makes of it: a document, or a
    [SyntaxError].  [JSON.stringify] writes the text of [to_json]. *)
Inductive text :=
| JsonText (doc : value)
| Garbled.

(** A file that exists is readable, or [readFileSync] and [copyFileSync]
    throw on it. *)
Inductive file :=
| File (t : text)
| Unreadable.

Inductive error :=
| InvalidData   (* new Error('Invalid data structure') *)
| IOError       (* thrown by an fs call *)
| SyntaxError   (* thrown by JSON.parse *)
| TypeError.

Inductive res (A : Type) :=
| Ok (a : A)
| Throw (e : error).
Arguments Ok {A} a.
Arguments Throw {A} e.

Abbreviation fs := (gmap string file).

(** A computation on the file system; after a throw the file system is the
    one the throwing call left. *)
Definition io (A : Type) : Type := fs -> res A * fs.

Definition ret {A} (a : A) : io A := fun s => (Ok a, s).
Definition throw {A} (e : error) : io A := fun s => (Throw e, s).
Definition bind {A B} (m : io A) (k : A -> io B) : io B :=
  fun s => match m s with
           | (Ok a, s') => k a s'
           | (Throw e, s') => (Throw e, s')
           end.
Definition catch {A} (m : io A) (h : error -> io A) : io A :=
  fun s => match m s with
           | (Ok a, s') => (Ok a, s')
           | (Throw e, s') => h e s'
           end.

Notation "'let*' x ':=' m 'in' k" := (bind m (fun x => k))
  (at level 10, x name, m at level 100, k at level 200).
Notation "m ';;' k" := (bind m (fun _ => k))
  (at level 100, k at level 200, right associativity).

(** Which fs calls of a request fail. *)
Inductive write_fault :=
| WriteOk
| WriteFailsEarly      (* nothing was created *)
| WriteFailsPartway.   (* a truncated file is left behind *)

Record faults := {
  f_copy : bool;
  f_write : write_fault;
  f_rename : bool;
  f_unlink : bool
}.

Definition no_faults : faults :=
  {| f_copy := false; f_write := WriteOk; f_rename := false; f_unlink := false |}.

Definition existsSync (p : string) (s : fs) : bool :=
  match s !! p with Some _ => true | None => false end.

Definition readFileSync (p : string) : io text :=
  fun s => match s !! p with
           | Some (File t) => (Ok t, s)
           | _ => (Throw IOError, s)
           end.

Definition copyFileSync (ft : faults) (src dst : string) : io unit :=
  fun s => if f_copy ft then (Throw IOError, s)
           else match s !! src with
                | Some (File t) => (Ok tt, <[dst := File t]> s)
                | _ => (Throw IOError, s)
                end.

Definition writeFileSync (ft : faults) (p : string) (t : text) : io unit :=
  fun s => match f_write ft with
           | WriteOk => (Ok tt, <[p := File t]> s)
           | WriteFailsEarly => (Throw IOError, s)
           | WriteFailsPartway => (Throw IOError, <[p := File Garbled]> s)
           end.

(** The rename is atomic: it replaces the target, or fails and changes
    nothing. *)
Definition renameSync (ft : faults) (src dst : string) : io unit :=
  fun s => if f_rename ft then (Throw IOError, s)
           else match s !! src with
                | Some f => (Ok tt, <[dst := f]> (delete src s))
                | None => (Throw IOError, s)
                end.

Definition unlinkSync (ft : faults) (p : string) : io unit :=
  fun s => if f_unlink ft then (Throw IOError, s)
           else match s !! p with
                | Some _ => (Ok tt, delete p s)
                | None => (Throw IOError, s)
                end.

Definition JSON_parse (t : text) : res value :=
  match t with
  | JsonText d => Ok d
  | Garbled => Throw SyntaxError
  end.

Definition JSON_stringify (v : value) : text := JsonText (to_json v).

Definition lift {A} (r : res A) : io A := fun s => (r, s).

Definition tempFile (dataFile : string) : string := dataFile ++ ".tmp".
Definition backupFile (dataFile : string) : string := dataFile ++ ".backup".

(** ** The atomic write and the backup, for a data file

    [writeData] and [tryRestoreFromBackup] of both servers, with the path of
    the data file ([DATA_FILE], or [getDataFile(accessCode)]) as a
    parameter. *)

Definition when_exists (p : string) (m : io unit) : io unit :=
  fun s => if existsSync p s then m s else (Ok tt, s).

(** The log line that ends the try block reads [data.count] and
    [data.log.length]; the second throws when [data.log] is missing. *)
Definition log_saved (data : value) : io unit :=
  match get data "log" with
  | VUndefined | VNull => throw TypeError
  | _ => ret tt
  end.

Definition writeData_at (ft : faults) (dataFile : string) (data : value) : io unit :=
  catch
    ((if negb (truthy data) || negb (jstype_eqb (typeof data) TObject)
      then throw InvalidData else ret tt) ;;
     when_exists dataFile (copyFileSync ft dataFile (backupFile dataFile)) ;;
     writeFileSync ft (tempFile dataFile) (JSON_stringify data) ;;
     renameSync ft (tempFile dataFile) dataFile ;;
     log_saved data)
    (fun error =>
       when_exists (tempFile dataFile)
         (catch (unlinkSync ft (tempFile dataFile)) (fun _ => ret tt)) ;;
       throw error).

(** Returns [null] when there is no backup or it cannot be read or parsed. *)
Definition tryRestoreFromBackup_at (dataFile : string) : io value :=
  catch
    (fun s =>
       if existsSync (backupFile dataFile) s
       then (let* backupData := readFileSync (backupFile dataFile) in
             lift (JSON_parse backupData)) s
       else (Ok VNull, s))
    (fun _ => ret VNull).

(** [if (!ok(parsed.k)) parsed.k = dflt]. *)
Definition ensure (ok : value -> bool) (k : string) (dflt : value) (parsed : value)
  : value :=
  if ok (get parsed k) then parsed else set parsed k dflt.

Definition is_number (v : value) : bool := jstype_eqb (typeof v) TNumber.
Definition is_string (v : value) : bool := jstype_eqb (typeof v) TString.

(** ** The handlers *)

Inductive response :=
| Json200 (body : value)                 (* res.json(data) *)
| RateLimited429 (remainingTime : number) (* res.status(429).json({...}) *)
| NotFound404                            (* res.status(404).json({...}) *)
| Error500 (e : error).                  (* a throw that leaves the handler *)

Definition nullish (v : value) : bool :=
  match v with VUndefined | VNull => true | _ => false end.

(** [entry.id === logId], for an entry that is not null or undefined. *)
Definition id_is (logId : string) (entry : value) : bool :=
  match get entry "id" with
  | VStr s => String.eqb s logId
  | _ => false
  end.

(** [data.log.findIndex(entry => entry.id === logId)]; [None] is -1.
    Reading [entry.id] throws on an entry that is null. *)
Fixpoint findIndex (logId : string) (l : list value) : res (option nat) :=
  match l with
  | [] => Ok None
  | entry :: l' =>
      if nullish entry then Throw TypeError
      else if id_is logId entry then Ok (Some 0%nat)
      else match findIndex logId l' with
           | Ok (Some i) => Ok (Some (S i))
           | r => r
           end
  end.

(** [parseInt(entry.id)] of an entry whose id is a string, as all entries
    are that the servers create; other entries are outside the model. *)
Definition id_number (entry : value) : option number :=
  match entry with
  | VUndefined | VNull => None
  | _ =>
      match get entry "id" with
      | VStr s => Some (parseInt s)
      | _ => None
      end
  end.

Fixpoint with_id_numbers (l : list value) : option (list (number * value)) :=
  match l with
  | [] => Some []
  | entry :: l' =>
      match id_number entry, with_id_numbers l' with
      | Some n, Some r => Some ((n, entry) :: r)
      | _, _ => None
      end
  end.

(** The comparator [(a, b) => parseInt(b.id) - parseInt(a.id)], on entries
    paired with [parseInt] of their id; [sort] reads [NaN] as 0. *)
Definition by_id_desc (a b : number * value) : Z :=
  match nsub (fst b) (fst a) with
  | Num z => z
  | NaN => 0%Z
  end.

(** [Array.prototype.sort] is stable; for a consistent comparator its
    result is the one of this insertion sort. *)
Fixpoint insert_sorted (x : number * value) (l : list (number * value))
  : list (number * value) :=
  match l with
  | [] => [x]
  | y :: l' =>
      if (0 <? by_id_desc x y)%Z then y :: insert_sorted x l' else x :: l
  end.

Fixpoint sort (l : list (number * value)) : list (number * value) :=
  match l with
  | [] => []
  | x :: l' => insert_sorted x (sort l')
  end.

Section Handlers.
(** The body of the handlers is the same in both servers; they differ in
    how they call [readData] and [writeData], and in the log entry. *)
Variable readData : io value.
Variable writeData : value -> io unit.
(** The properties of a new log entry after [id] and [timestamp]. *)
Variable entry_rest : value -> list (string * value).

(** [now] is the first reading of [Date.now()], [id_now] the second, which
    gives the id; [timestamp] is [new Date().toLocaleString()].
    [None]: the document is outside the model (a count or a time that is
    not a number). *)
Definition increment (now : Z) (timestamp : string) (id_now : Z) (s : fs)
  : option (response * fs) :=
  match readData s with
  | (Throw e, s1) => Some (Error500 e, s1)
  | (Ok data, s1) =>
      match get data "lastIncrementTime" with
      | VNum last =>
          let timeSinceLastIncrement := nsub (Num now) last in
          if nlt timeSinceLastIncrement (Num 20000) then
            Some (RateLimited429
                    (ceil_thousandth (nsub (Num 20000) timeSinceLastIncrement)),
                  s1)
          else
            match get data "count" with
            | VNum c =>
                let data := set data "count" (VNum (nadd c (Num 1))) in
                let data := set data "lastIncrementTime" (VNum (Num now)) in
                let entry :=
                  VObj (("id", VStr (toString id_now))
                          :: ("timestamp", VStr timestamp)
                          :: entry_rest data) in
                match get data "log" with
                | VArr l p =>
                    let data := set data "log" (VArr (entry :: l) p) in
                    let data :=
                      if (20 <? length (entry :: l))%nat
                      then set data "log" (VArr (take 20 (entry :: l)) [])
                      else data in
                    match writeData data s1 with
                    | (Throw e, s2) => Some (Error500 e, s2)
                    | (Ok _, s2) => Some (Json200 data, s2)
                    end
                | _ => Some (Error500 TypeError, s1)
                end
            | _ => None
            end
      | _ => None
      end
  end.

(** [lastIncrementTime] after a deletion that leaves [l]. *)
Definition recalculated (l : list value) : option number :=
  if (0 <? length l)%nat then
    match with_id_numbers l with
    | Some keyed =>
        match sort keyed with
        | (n, _) :: _ => Some n
        | [] => None
        end
    | None => None
    end
  else Some (Num 0).

Definition deleteEntry (logId : string) (s : fs) : option (response * fs) :=
  match readData s with
  | (Throw e, s1) => Some (Error500 e, s1)
  | (Ok data, s1) =>
      match get data "log" with
      | VArr l p =>
          match findIndex logId l with
          | Throw e => Some (Error500 e, s1)
          | Ok None => Some (NotFound404, s1)
          | Ok (Some logIndex) =>
              let l' := delete logIndex l in
              let data := set data "log" (VArr l' p) in
              let data := set data "count" (VNum (Num (Z.of_nat (length l')))) in
              match recalculated l' with
              | Some last =>
                  let data := set data "lastIncrementTime" (VNum last) in
                  match writeData data s1 with
                  | (Throw e, s2) => Some (Error500 e, s2)
                  | (Ok _, s2) => Some (Json200 data, s2)
                  end
              | None => None
              end
          end
      | _ => Some (Error500 TypeError, s1)
      end
  end.
End Handlers.

(** ** The single-room server *)

Module Single.
Definition DATA_FILE : string := "counter-data.json".

Definition writeData (ft : faults) (data : value) : io unit :=
  writeData_at ft DATA_FILE data.

Definition initializeData (ft : faults) : io value :=
  let initialData :=
    VObj [("count", VNum (Num 0)); ("log", VArr [] []);
          ("lastIncrementTime", VNum (Num 0))] in
  writeData ft initialData ;; ret initialData.

Definition tryRestoreFromBackup : io value :=
  tryRestoreFromBackup_at DATA_FILE.

Definition coerce (parsed : value) : value :=
  let parsed := ensure is_number "count" (VNum (Num 0)) parsed in
  let parsed := ensure isArray "log" (VArr [] []) parsed in
  ensure is_number "lastIncrementTime" (VNum (Num 0)) parsed.

Definition readData (ft : faults) : io value :=
  catch
    (fun s =>
       if negb (existsSync DATA_FILE s) then initializeData ft s
       else
         (let* data := readFileSync DATA_FILE in
          let* parsed := lift (JSON_parse data) in
          if negb (truthy parsed) || negb (jstype_eqb (typeof parsed) TObject)
          then initializeData ft
          else ret (coerce parsed)) s)
    (fun _ =>
       let* backupData := tryRestoreFromBackup in
       if truthy backupData then ret backupData else initializeData ft).

Definition entry_rest (data : value) : list (string * value) :=
  [("count", get data "count")].

(** [app.post('/api/increment')] *)
Definition increment (ft : faults) :=
  increment (readData ft) (writeData ft) entry_rest.

(** [app.delete('/api/log/:id')] *)
Definition deleteEntry (ft : faults) :=
  deleteEntry (readData ft) (writeData ft).
End Single.

(** ** The multi-room server, [server.js] *)

Module Rooms.
Definition allowed (c : ascii) : bool :=
  let n := nat_of_ascii c in
  (Nat.leb 97 n && Nat.leb n 122) || (Nat.leb 65 n && Nat.leb n 90)
  || (Nat.leb 48 n && Nat.leb n 57) || Nat.eqb n 45 || Nat.eqb n 95.

(** [accessCode.replace(/[^a-zA-Z0-9-_]/g, '_')] *)
Fixpoint sanitizedCode (accessCode : string) : string :=
  match accessCode with
  | String c r => String (if allowed c then c else "_"%char) (sanitizedCode r)
  | EmptyString => EmptyString
  end.

(** The path is relative to [__dirname].  [accessCode.replace] throws a
    [TypeError] on anything that is not a string. *)
Definition dataFile_of (code : string) : string :=
  "counter-data-" ++ sanitizedCode code ++ ".json".

Definition getDataFile (accessCode : value) : res string :=
  match accessCode with
  | VStr code => Ok (dataFile_of code)
  | _ => Throw TypeError
  end.

Definition writeData (ft : faults) (accessCode data : value) : io unit :=
  let* dataFile := lift (getDataFile accessCode) in
  writeData_at ft dataFile data.

Definition initialData (accessCode : value) : value :=
  VObj [("accessCode", accessCode); ("count", VNum (Num 0));
        ("log", VArr [] []); ("lastIncrementTime", VNum (Num 0));
        ("pushSubscriptions", VArr [] [])].

Definition initializeData (ft : faults) (accessCode : value) : io value :=
  writeData ft accessCode (initialData accessCode) ;;
  ret (initialData accessCode).

Definition tryRestoreFromBackup (accessCode : value) : io value :=
  let* dataFile := lift (getDataFile accessCode) in
  tryRestoreFromBackup_at dataFile.

Definition coerce (accessCode : value) (parsed : value) : value :=
  let parsed := ensure is_number "count" (VNum (Num 0)) parsed in
  let parsed := ensure isArray "log" (VArr [] []) parsed in
  let parsed := ensure is_number "lastIncrementTime" (VNum (Num 0)) parsed in
  let parsed := ensure isArray "pushSubscriptions" (VArr [] []) parsed in
  ensure is_string "accessCode" accessCode parsed.

Definition readData (ft : faults) (accessCode : value) : io value :=
  let* dataFile := lift (getDataFile accessCode) in
  catch
    (fun s =>
       if negb (existsSync dataFile s) then initializeData ft accessCode s
       else
         (let* data := readFileSync dataFile in
          let* parsed := lift (JSON_parse data) in
          if negb (truthy parsed) || negb (jstype_eqb (typeof parsed) TObject)
          then initializeData ft accessCode
          else ret (coerce accessCode parsed)) s)
    (fun _ =>
       let* backupData := tryRestoreFromBackup accessCode in
       if truthy backupData then ret backupData
       else initializeData ft accessCode).

(** [req.username || 'Anonymous'] *)
Definition entry_rest (username : value) (data : value) : list (string * value) :=
  [("count", get data "count");
   ("username", if truthy username then username else VStr "Anonymous")].

(** [app.post('/api/increment')]: the handler calls [readData()] and
    [writeData(data)], so [accessCode] is [undefined] in the first and
    [data] in the second, whose [data] is [undefined].  The push
    notifications that follow the write are sent asynchronously and are
    left out. *)
Definition increment (ft : faults) (username : value) :=
  increment (readData ft VUndefined)
            (fun data => writeData ft data VUndefined)
            (entry_rest username).

(** [app.delete('/api/log/:id')], with the same calls. *)
Definition deleteEntry (ft : faults) :=
  deleteEntry (readData ft VUndefined)
              (fun data => writeData ft data VUndefined).
End Rooms.

(** ** States, entries and runs that the properties are about *)

(** The characters of [A-Za-z0-9_-]. *)
Definition key_characters : list ascii :=
  list_ascii_of_string
    "abcdefghijklmnopqrstuvwxyzABCDEFGHIJKLMNOPQRSTUVWXYZ0123456789_-".

(** A room state with every field of the data model. *)
Definition valid_state (data : value) : bool :=
  is_object data && is_number (get data "count") && isArray (get data "log")
  && is_number (get data "lastIncrementTime")
  && isArray (get data "pushSubscriptions")
  && is_string (get data "accessCode") && json_clean data.

Definition absent_or (ok : value -> bool) (v : value) : bool :=
  match v with VUndefined => true | _ => ok v end.

(** A room state whose subscriptions or access code may be missing. *)
Definition persistable (data : value) : bool :=
  is_object data && is_number (get data "count") && isArray (get data "log")
  && is_number (get data "lastIncrementTime")
  && absent_or isArray (get data "pushSubscriptions")
  && absent_or is_string (get data "accessCode") && json_clean data.

(** The key of a sorted pair, and the pairs whose key is a number. *)
Definition key_of (x : number * value) : Z :=
  match fst x with Num z => z | NaN => 0%Z end.

Definition numeric (x : number * value) : Prop := exists z, fst x = Num z.

(** [entry] has a string id that [parseInt] reads as [z]. *)
Definition numeric_id (entry : value) (z : Z) : Prop :=
  nullish entry = false /\
  exists sid, get entry "id" = VStr sid /\ parseInt sid = Num z.

(** The body of a 200 answer, and the file system a handler leaves. *)
Definition body_of (r : option (response * fs)) : value :=
  match r with
  | Some (Json200 body, _) => body
  | _ => VUndefined
  end.

Definition final_fs (r : option (response * fs)) : fs :=
  match r with
  | Some (_, s') => s'
  | None => ∅
  end.

(** A single-room state with two entries. *)
Definition two_entries : value :=
  VObj [("count", VNum (Num 2));
        ("log", VArr [VObj [("id", VStr "1700000020000"); ("timestamp", VStr "t2");
                            ("count", VNum (Num 2))];
                      VObj [("id", VStr "1700000000000"); ("timestamp", VStr "t1");
                            ("count", VNum (Num 1))]] []);
        ("lastIncrementTime", VNum (Num 1700000020000))].

(** Increments of the single-room server at the given times, each on the
    file system that the one before left; the answer is the one to the
    last. *)
Fixpoint Single_increments (times : list Z) (s : fs) : option (response * fs) :=
  match times with
  | [] => None
  | now :: rest =>
      match Single.increment no_faults now "" now s with
      | Some (r, s') =>
          match rest with
          | [] => Some (r, s')
          | _ => Single_increments rest s'
          end
      | None => None
      end
  end.

(** Twenty-one times, 20 seconds apart. *)
Definition twenty_one_times : list Z :=
  map (fun i => (1700000000000 + 20000 * Z.of_nat i)%Z) (seq 0 21).

(** A log whose two first entries were made in the same millisecond. *)
Definition shared_id : value :=
  VObj [("count", VNum (Num 3));
        ("log", VArr [VObj [("id", VStr "1700000020000"); ("timestamp", VStr "t2");
                            ("count", VNum (Num 2))];
                      VObj [("id", VStr "1700000020000"); ("timestamp", VStr "t3");
                            ("count", VNum (Num 3))];
                      VObj [("id", VStr "1700000000000"); ("timestamp", VStr "t1");
                            ("count", VNum (Num 1))]] []);
        ("lastIncrementTime", VNum (Num 1700000020000))].

(** The document of the single-room server before the first increment. *)
Definition fresh_document : value :=
  VObj [("count", VNum (Num 0)); ("log", VArr [] []);
        ("lastIncrementTime", VNum (Num 0))].

(** The state after an increment at [now] of a state with count [c] and
    log [l]. *)
Definition incremented (entry_rest : value -> list (string * value))
    (data : value) (now : Z) (timestamp : string) (id_now c : Z)
    (l : list value) (p : list (string * value)) : value :=
  let data1 :=
    set (set data "count" (VNum (Num (c + 1)))) "lastIncrementTime" (VNum (Num now)) in
  let log :=
    VObj (("id", VStr (toString id_now)) :: ("timestamp", VStr timestamp)
            :: entry_rest data1) :: l in
  set data1 "log" (VArr (take 20 log) (if (20 <? length log)%nat then [] else p)).

(** The state after the deletion of the entry at [i]. *)
Definition deleted (data : value) (i : nat) (l : list value) (p : list (string * value))
    (last : number) : value :=
  set (set (set data "log" (VArr (delete i l) p))
           "count" (VNum (Num (Z.of_nat (length (delete i l))))))
      "lastIncrementTime" (VNum last).

(** ** The other routes *)

(** [a >= b]: false when an operand is [NaN]. *)
Definition nge (a b : number) : bool :=
  match a, b with
  | Num x, Num y => (y <=? x)%Z
  | _, _ => false
  end.

(** [a === b], for two values of which one was parsed from the data file
    and the other from the request: two objects are never one and the
    same. *)
Definition strict_eq (a b : value) : bool :=
  match a, b with
  | VUndefined, VUndefined => true
  | VNull, VNull => true
  | VBool x, VBool y => Bool.eqb x y
  | VNum (Num x), VNum (Num y) => (x =? y)%Z
  | VStr x, VStr y => String.eqb x y
  | _, _ => false
  end.

(** What a route answers: a status with a JSON body, a redirect, or a throw
    that leaves the handler. *)
Inductive reply :=
| Reply (status : nat) (body : value)
| Redirect (location : string)
| Uncaught (e : error).

(** [app.get('/api/counter')] *)
Definition counter (readData : io value) (s : fs) : reply * fs :=
  match readData s with
  | (Ok data, s1) => (Reply 200 data, s1)
  | (Throw e, s1) => (Uncaught e, s1)
  end.

(** [app.get('/api/button-state')]; [None]: a time that is not a number. *)
Definition buttonState (readData : io value) (now : Z) (s : fs)
  : option (reply * fs) :=
  match readData s with
  | (Throw e, s1) => Some (Uncaught e, s1)
  | (Ok data, s1) =>
      match get data "lastIncrementTime" with
      | VNum last =>
          let timeSinceLastIncrement := nsub (Num now) last in
          let isEnabled := nge timeSinceLastIncrement (Num 20000) in
          let remainingTime :=
            if isEnabled then Num 0
            else ceil_thousandth (nsub (Num 20000) timeSinceLastIncrement) in
          Some (Reply 200 (VObj [("isEnabled", VBool isEnabled);
                                 ("remainingTime", VNum remainingTime);
                                 ("lastIncrementTime", VNum last)]),
                s1)
      | _ => None
      end
  end.

(** [app.get('/api/export-data')]: a throw of [readData] is caught. *)
Definition exportData (readData : io value) (s : fs) : reply * fs :=
  match readData s with
  | (Ok data, s1) => (Reply 200 data, s1)
  | (Throw _, s1) =>
      (Reply 500 (VObj [("error", VStr "Failed to export data")]), s1)
  end.

(** A number in a template string. *)
Definition number_text (n : number) : string :=
  match n with
  | Num z => toString z
  | NaN => "NaN"
  end.

(** The three fields that the import sets to their defaults, as [readData]
    of the single-room server does. *)
Definition coerce_imported (importedData : value) : value :=
  let importedData := ensure is_number "count" (VNum (Num 0)) importedData in
  let importedData := ensure isArray "log" (VArr [] []) importedData in
  ensure is_number "lastIncrementTime" (VNum (Num 0)) importedData.

Definition imported_message (importedData : value) : string :=
  "Imported "
  ++ match get importedData "count" with VNum n => number_text n | _ => "" end
  ++ " snacks and "
  ++ match get importedData "log" with
     | VArr l _ => toString (Z.of_nat (length l))
     | _ => ""
     end
  ++ " log entries".

(** [app.post('/api/import-data')]; [importedData] is [req.body]. *)
Definition importData (writeData : value -> io unit) (importedData : value)
    (s : fs) : reply * fs :=
  if negb (truthy importedData) || negb (jstype_eqb (typeof importedData) TObject)
  then (Reply 400 (VObj [("error", VStr "Invalid data format")]), s)
  else
    let importedData := coerce_imported importedData in
    match writeData importedData s with
    | (Ok _, s1) =>
        (Reply 200 (VObj [("success", VBool true);
                          ("message", VStr (imported_message importedData))]),
         s1)
    | (Throw _, s1) =>
        (Reply 500 (VObj [("error", VStr "Failed to import data")]), s1)
    end.

(** [subs.filter(sub => sub.endpoint !== endpoint)]; reading [sub.endpoint]
    throws on a subscription that is null. *)
Fixpoint without_endpoint (endpoint : value) (subs : list value)
  : res (list value) :=
  match subs with
  | [] => Ok []
  | sub :: rest =>
      if nullish sub then Throw TypeError
      else match without_endpoint endpoint rest with
           | Ok kept =>
               Ok (if strict_eq (get sub "endpoint") endpoint then kept
                   else sub :: kept)
           | Throw e => Throw e
           end
  end.

(** [app.post('/api/subscribe')]; [subscription] is [req.body].  Reading
    [subscription.endpoint] in the filter throws on a body that is null. *)
Definition subscribe (readData : io value) (writeData : value -> io unit)
    (subscription : value) (s : fs) : reply * fs :=
  match readData s with
  | (Throw e, s1) => (Uncaught e, s1)
  | (Ok data, s1) =>
      match get data "pushSubscriptions" with
      | VArr subs _ =>
          let filtered :=
            match subs with
            | [] => Ok []
            | _ => if nullish subscription then Throw TypeError
                   else without_endpoint (get subscription "endpoint") subs
            end in
          match filtered with
          | Throw e => (Uncaught e, s1)
          | Ok kept =>
              let subs' := (kept ++ [subscription])%list in
              let data := set data "pushSubscriptions" (VArr subs' []) in
              let data :=
                if (50 <? length subs')%nat
                then set data "pushSubscriptions"
                       (VArr (drop (length subs' - 50) subs') [])
                else data in
              match writeData data s1 with
              | (Throw e, s2) => (Uncaught e, s2)
              | (Ok _, s2) =>
                  (Reply 201 (VObj [("message",
                                     VStr "Subscription added successfully")]),
                   s2)
              end
          end
      | _ => (Uncaught TypeError, s1)
      end
  end.

(** The routes of the single-room server. *)
Module SingleApi.
Definition counter (ft : faults) := counter (Single.readData ft).
Definition buttonState (ft : faults) := buttonState (Single.readData ft).
Definition exportData (ft : faults) := exportData (Single.readData ft).
Definition importData (ft : faults) := importData (Single.writeData ft).

(** One request after the other: increments at the given readings of the
    clock (the time of the request, the time stamp, the time of the id). *)
Fixpoint increments (ft : faults) (requests : list (Z * string * Z)) (s : fs)
  : option (list response * fs) :=
  match requests with
  | [] => Some ([], s)
  | (now, timestamp, id_now) :: rest =>
      match Single.increment ft now timestamp id_now s with
      | Some (r, s1) =>
          match increments ft rest s1 with
          | Some (rs, s2) => Some (r :: rs, s2)
          | None => None
          end
      | None => None
      end
  end.
End SingleApi.

(** The routes of [server.js], from the access code that the request
    carries, [req.accessCode]. *)
Module RoomsApi.
Definition counter (ft : faults) (accessCode : value) :=
  counter (Rooms.readData ft accessCode).
Definition buttonState (ft : faults) (accessCode : value) :=
  buttonState (Rooms.readData ft accessCode).

(** These three call [readData()] and [writeData(data)]. *)
Definition exportData (ft : faults) := exportData (Rooms.readData ft VUndefined).
Definition importData (ft : faults) :=
  importData (fun data => Rooms.writeData ft data VUndefined).
Definition subscribe (ft : faults) (accessCode : value) :=
  subscribe (Rooms.readData ft accessCode)
            (fun data => Rooms.writeData ft data VUndefined).

(** [removeInvalidSubscription(accessCode, endpoint)] *)
Definition removeInvalidSubscription (ft : faults) (accessCode endpoint : value)
  : io unit :=
  let* data := Rooms.readData ft accessCode in
  match get data "pushSubscriptions" with
  | VArr subs _ =>
      let* kept := lift (without_endpoint endpoint subs) in
      Rooms.writeData ft accessCode
        (set data "pushSubscriptions" (VArr kept []))
  | _ => throw TypeError
  end.

(** [app.get('/api/user-info')]: [req.username || 'Guest']. *)
Definition userInfo (username : value) : reply :=
  Reply 200 (VObj [("username",
                    if truthy username then username else VStr "Guest")]).
End RoomsApi.

(** ** Access control and login of [server.js] *)

(** [/^[a-zA-Z0-9_-]+$/.test(accessCode)] on a string. *)
Definition valid_code (accessCode : string) : bool :=
  negb (String.eqb accessCode "")
  && forallb Rooms.allowed (list_ascii_of_string accessCode).

(** [haystack.includes(needle)] *)
Fixpoint includes (needle haystack : string) : bool :=
  String.prefix needle haystack
  || match haystack with
     | String _ rest => includes needle rest
     | EmptyString => false
     end.

(** What the access control reads of a request; a parameter or a cookie
    that is absent is [None]. *)
Record request := {
  req_method : string;
  req_path : string;
  query_access : option string;
  cookies : gmap string string
}.

(** [a || b] on strings that may be absent: the first that is not empty. *)
Definition first_truthy (a b : option string) : option string :=
  match a with
  | Some x => if String.eqb x "" then b else a
  | None => b
  end.

(** The request goes on to the routes, with [req.accessCode] and
    [req.username] as they are then, or is sent to the login page. *)
Inductive access :=
| Next (accessCode username : value)
| ToLogin.

Definition accessControl (req : request) : access :=
  if String.prefix "/api/" (req_path req)
     || includes ".css" (req_path req)
     || includes ".js" (req_path req)
     || String.eqb (req_path req) "/login"
     || (String.eqb (req_method req) "POST" && String.eqb (req_path req) "/")
  then Next VUndefined VUndefined
  else
    match first_truthy (query_access req) (cookies req !! "accessCode") with
    | Some accessCode =>
        if negb (String.eqb accessCode "") && valid_code accessCode
        then Next (VStr accessCode)
                  (VStr (match cookies req !! "username" with
                         | Some name => if String.eqb name "" then "Anonymous" else name
                         | None => "Anonymous"
                         end))
        else ToLogin
    | None => ToLogin
    end.

(** White space that [trim] removes, among the characters below 256. *)
Definition is_blank (c : ascii) : bool :=
  is_space c || Nat.eqb (nat_of_ascii c) 160.

Fixpoint trimStart (l : list ascii) : list ascii :=
  match l with
  | c :: r => if is_blank c then trimStart r else l
  | [] => []
  end.

Definition trim (s : string) : string :=
  string_of_list_ascii
    (rev (trimStart (rev (trimStart (list_ascii_of_string s))))).

Definition unsafe_in_name (c : ascii) : bool :=
  match nat_of_ascii c with
  | 60 | 62 | 34 | 39 | 38 => true
      (* the angle brackets, the two quotes and the ampersand *)
  | _ => false
  end.

(** [username.trim().substring(0, 50)] without the characters of the
    class that [replace] removes. *)
Definition cleanUsername (username : string) : string :=
  string_of_list_ascii
    (filter (fun c => unsafe_in_name c = false)
            (list_ascii_of_string (String.substring 0 50 (trim username)))).

Inductive login_result :=
| InvalidCodeFormat          (* the login page, with the message on the format *)
| NameMissing                (* the login page, asking for the name *)
| LoggedIn (accessCode username : string) (location : string).

(** [app.post('/login')], from the two fields of the form. *)
Definition login (accessCode username : option string) : login_result :=
  match accessCode with
  | Some code =>
      if String.eqb code "" || negb (valid_code code) then InvalidCodeFormat
      else
        match username with
        | Some name =>
            if String.eqb name "" || Nat.eqb (String.length (trim name)) 0
            then NameMissing
            else LoggedIn code (cleanUsername name) ("/?access=" ++ code)
        | None => NameMissing
        end
  | None => InvalidCodeFormat
  end.

(** ** Runs of increments *)

(** Each request comes 20 seconds or more after the last increment. *)
Fixpoint spaced (t : Z) (requests : list (Z * string * Z)) : Prop :=
  match requests with
  | [] => True
  | (now, _, _) :: rest => (20000 <= now - t)%Z /\ spaced now rest
  end.

(** The count, the log and the time of the last increment after the
    requests, from the ones before them. *)
Fixpoint after_increments (c : Z) (l : list value) (t : Z)
    (requests : list (Z * string * Z)) : Z * list value * Z :=
  match requests with
  | [] => (c, l, t)
  | (now, timestamp, id_now) :: rest =>
      after_increments (c + 1)
        (take 20 (VObj [("id", VStr (toString id_now));
                        ("timestamp", VStr timestamp);
                        ("count", VNum (Num (c + 1)))] :: l))
        now rest
  end.

Definition is_200 (r : response) : Prop :=
  match r with Json200 _ => True | _ => False end.

(** A room state with two subscriptions. *)
Definition two_subscriptions : value :=
  VObj [("accessCode", VStr "den"); ("count", VNum (Num 0)); ("log", VArr [] []);
        ("lastIncrementTime", VNum (Num 0));
        ("pushSubscriptions",
         VArr [VObj [("endpoint", VStr "https://push.example/1")];
               VObj [("endpoint", VStr "https://push.example/2")]] [])].

(** * Properties *)

(** ** Reading and assigning properties *)

Lemma assoc_get_set_eq k x l : assoc_get k (assoc_set k x l) = x.
Proof.
  induction l as [|[k' v] l IH]; simpl.
  - by rewrite String.eqb_refl.
  - destruct (String.eqb k k') eqn:E; simpl; rewrite E; [done | apply IH].
Qed.

Lemma assoc_get_set_ne k k' x l :
  k <> k' -> assoc_get k' (assoc_set k x l) = assoc_get k' l.
Proof.
  intros Hne. induction l as [|[k0 v] l IH]; simpl.
  - destruct (String.eqb_spec k' k); [congruence | done].
  - destruct (String.eqb_spec k k0) as [->|]; simpl.
    + destruct (String.eqb_spec k' k0); [congruence | done].
    + by rewrite IH.
Qed.

Lemma is_object_cases v :
  is_object v = true -> (exists e p, v = VArr e p) \/ (exists f, v = VObj f).
Proof.
  unfold is_object.
  destruct v as [| |b|n|s|e p|f]; simpl; rewrite ?andb_false_r;
    try discriminate; eauto.
Qed.

Lemma get_set_eq v k x : is_object v = true -> get (set v k x) k = x.
Proof.
  intros [(e & p & ->)|(f & ->)]%is_object_cases; simpl; apply assoc_get_set_eq.
Qed.

Lemma get_set_ne v k k' x : k <> k' -> get (set v k x) k' = get v k'.
Proof.
  intros Hne. destruct v; simpl; try done; by apply assoc_get_set_ne.
Qed.

Lemma is_object_set v k x : is_object (set v k x) = is_object v.
Proof. by destruct v. Qed.

Lemma is_object_ensure ok k d v : is_object (ensure ok k d v) = is_object v.
Proof. unfold ensure. destruct (ok (get v k)); [done | apply is_object_set]. Qed.

Lemma get_ensure_eq ok k d v :
  is_object v = true ->
  get (ensure ok k d v) k = if ok (get v k) then get v k else d.
Proof.
  intros Hv. unfold ensure. destruct (ok (get v k)); [done | by apply get_set_eq].
Qed.

Lemma get_ensure_ne ok k k' d v : k <> k' -> get (ensure ok k d v) k' = get v k'.
Proof.
  intros Hne. unfold ensure. destruct (ok (get v k)); [done | by apply get_set_ne].
Qed.

Lemma ensure_id ok k d v : ok (get v k) = true -> ensure ok k d v = v.
Proof. intros H. unfold ensure. by rewrite H. Qed.

(** ** Paths *)

Lemma append_inv_nil (a b : string) : a = a ++ b -> b = "".
Proof.
  induction a as [|c a IH]; simpl; [done|].
  intros H. injection H as H. by apply IH.
Qed.

Lemma append_inj_l (a b c : string) : a ++ b = a ++ c -> b = c.
Proof.
  induction a as [|x a IH]; simpl; [done|].
  intros H. injection H as H. by apply IH.
Qed.

Lemma tempFile_ne p : tempFile p <> p.
Proof. intros H. symmetry in H. by apply append_inv_nil in H. Qed.

Lemma backupFile_ne p : backupFile p <> p.
Proof. intros H. symmetry in H. by apply append_inv_nil in H. Qed.

Lemma tempFile_backupFile_ne p : tempFile p <> backupFile p.
Proof. intros H. by apply append_inj_l in H. Qed.

(** ** The atomic write *)

Lemma not_object_test data :
  negb (truthy data) || negb (jstype_eqb (typeof data) TObject)
  = negb (is_object data).
Proof. unfold is_object. by rewrite negb_andb. Qed.

Ltac unfold_io :=
  unfold writeData_at, tryRestoreFromBackup_at, catch, bind, lift, when_exists,
    copyFileSync, writeFileSync, renameSync, unlinkSync, readFileSync,
    existsSync, log_saved, throw, ret in *.

Ltac paths :=
  first [ apply tempFile_ne | apply backupFile_ne | apply tempFile_backupFile_ne
        | apply not_eq_sym; first [ apply tempFile_ne | apply backupFile_ne
                                  | apply tempFile_backupFile_ne ] ].

Ltac lookups :=
  repeat first
    [ rewrite lookup_insert_eq
    | rewrite lookup_delete_eq
    | rewrite lookup_insert_ne by paths
    | rewrite lookup_delete_ne by paths ].

Ltac close_case :=
  intros [= <- <-]; repeat split; intros; simplify_eq; try done;
  repeat match goal with H : _ \/ _ |- _ => destruct H end;
  try discriminate; lookups; try done.

Ltac split_case :=
  match goal with
  | |- context [if f_copy ?ft then _ else _] => destruct (f_copy ft) eqn:?
  | |- context [match f_write ?ft with _ => _ end] => destruct (f_write ft) eqn:?
  | |- context [if f_rename ?ft then _ else _] => destruct (f_rename ft) eqn:?
  | |- context [if f_unlink ?ft then _ else _] => destruct (f_unlink ft) eqn:?
  | |- context [match get ?d "log" with _ => _ end] =>
      destruct (get d "log") eqn:?
  | |- context [match ?m !! ?p with _ => _ end] =>
      is_var m; destruct (m !! p) as [[?|]|] eqn:?
  end.

(** What a call of [writeData] leaves, whatever fails. *)
Lemma writeData_at_outcome (ft : faults) (dataFile : string) (data : value) (s : fs) :
  forall r s', writeData_at ft dataFile data s = (r, s') ->
  (r = Throw InvalidData <-> is_object data = false) /\
  (forall e, r = Throw e -> e = InvalidData \/ e = IOError ->
     s' !! dataFile = s !! dataFile /\
     (f_unlink ft = false -> s' !! tempFile dataFile = None)) /\
  (r = Ok tt ->
     is_object data = true /\ f_write ft = WriteOk /\ f_rename ft = false /\
     (s !! dataFile = None \/
      f_copy ft = false /\ exists t, s !! dataFile = Some (File t)) /\
     s' !! dataFile = Some (File (JSON_stringify data)) /\
     s' !! tempFile dataFile = None /\
     s' !! backupFile dataFile =
       match s !! dataFile with Some f => Some f | None => s !! backupFile dataFile end /\
     forall p, p <> dataFile -> p <> tempFile dataFile -> p <> backupFile dataFile ->
               s' !! p = s !! p).
Proof.
  intros r s'. unfold_io. rewrite not_object_test.
  destruct (is_object data) eqn:Hobj; simpl;
    repeat first [progress lookups | progress simpl | split_case]; close_case;
    eauto; intros; by simplify_map_eq.
Qed.

(** Without faults the write succeeds, on a state that has a log, over a
    document that is absent or readable. *)
Lemma writeData_at_ok (dataFile : string) (data : value) (s : fs) :
  is_object data = true ->
  get data "log" <> VUndefined -> get data "log" <> VNull ->
  s !! dataFile <> Some Unreadable ->
  exists s', writeData_at no_faults dataFile data s = (Ok tt, s').
Proof.
  intros Hobj Hu Hn Hr. unfold_io. rewrite not_object_test, Hobj. simpl.
  destruct (s !! dataFile) as [[t|]|] eqn:Hdf; try done; lookups; simpl;
    destruct (get data "log"); try done; eauto.
Qed.

(** ** JSON round trip *)

Lemma to_json_clean : forall v, json_clean v = true -> to_json v = v.
Proof.
  fix IH 1. intros [| |b|[z|]|s|e p|f]; simpl; try done.
  - intros [He Hp]%andb_true_iff. destruct p; [|done]. f_equal.
    revert He. induction e as [|x e IHe]; simpl; [done|].
    intros [Hx He]%andb_true_iff. by rewrite IH, IHe.
  - intros Hf. f_equal. revert Hf.
    induction f as [|[k x] f IHf]; simpl; [done|].
    intros [Hx Hf]%andb_true_iff. rewrite IHf by done.
    rewrite (IH x Hx). by destruct x.
Qed.

(** ** Loading *)

Section Load.
Variables (ft : faults) (code : string) (s : fs).

Lemma Rooms_readData_document (parsed : value) :
  s !! Rooms.dataFile_of code = Some (File (JsonText parsed)) ->
  is_object parsed = true ->
  Rooms.readData ft (VStr code) s = (Ok (Rooms.coerce (VStr code) parsed), s).
Proof.
  intros Hdf Hobj. unfold Rooms.readData, Rooms.getDataFile. unfold_io.
  rewrite Hdf. simpl. by rewrite not_object_test, Hobj.
Qed.

(** A primary document that cannot be read or parsed sends [readData] to
    its catch block. *)
Lemma Rooms_readData_broken :
  s !! Rooms.dataFile_of code = Some Unreadable \/
  s !! Rooms.dataFile_of code = Some (File Garbled) ->
  Rooms.readData ft (VStr code) s =
  (let* backupData := Rooms.tryRestoreFromBackup (VStr code) in
   if truthy backupData then ret backupData
   else Rooms.initializeData ft (VStr code)) s.
Proof.
  intros [Hdf|Hdf]; unfold Rooms.readData, Rooms.getDataFile; unfold_io;
    by rewrite Hdf.
Qed.

Lemma Rooms_restore_backup (v : value) :
  s !! backupFile (Rooms.dataFile_of code) = Some (File (JsonText v)) ->
  Rooms.tryRestoreFromBackup (VStr code) s = (Ok v, s).
Proof.
  intros Hb. unfold Rooms.tryRestoreFromBackup, Rooms.getDataFile. unfold_io.
  by rewrite Hb.
Qed.

Lemma Rooms_restore_nothing :
  (forall v, s !! backupFile (Rooms.dataFile_of code) = Some (File (JsonText v)) ->
             truthy v = false) ->
  exists v, Rooms.tryRestoreFromBackup (VStr code) s = (Ok v, s) /\ truthy v = false.
Proof.
  intros Hb. unfold Rooms.tryRestoreFromBackup, Rooms.getDataFile. unfold_io.
  destruct (s !! backupFile (Rooms.dataFile_of code)) as [[[v|]|]|] eqn:E;
    simpl; eauto.
Qed.
End Load.

(** ** The room key *)

(** The character class of the regular expression is [A-Za-z0-9_-]. *)
Lemma allowed_class (c : ascii) :
  Rooms.allowed c = true <-> c ∈ key_characters.
Proof.
  assert (Rooms.allowed c = bool_decide (c ∈ key_characters)) as ->
      by (by destruct c as [[] [] [] [] [] [] [] []]).
  apply bool_decide_eq_true.
Qed.

Lemma sanitizedCode_chars (code : string) :
  list_ascii_of_string (Rooms.sanitizedCode code)
  = map (fun c => if Rooms.allowed c then c else "_"%char) (list_ascii_of_string code).
Proof. induction code as [|c code IH]; simpl; [done | by rewrite IH]. Qed.

Lemma allowed_replacement (c : ascii) :
  Rooms.allowed (if Rooms.allowed c then c else "_"%char) = true.
Proof. by destruct (Rooms.allowed c) eqn:E. Qed.

(** C9: the key made from an access code has only characters of
    [A-Za-z0-9_-]: each character of the code is kept when it is one of
    them and replaced by an underscore otherwise.  Making the key of a key
    changes nothing, and a code that is already a key is its own key. *)
Theorem sanitizedCode_canonical (code : string) :
  Forall (fun c => c ∈ key_characters)
         (list_ascii_of_string (Rooms.sanitizedCode code)) /\
  list_ascii_of_string (Rooms.sanitizedCode code)
  = map (fun c => if bool_decide (c ∈ key_characters) then c else "_"%char)
        (list_ascii_of_string code) /\
  Rooms.sanitizedCode (Rooms.sanitizedCode code) = Rooms.sanitizedCode code /\
  (Forall (fun c => c ∈ key_characters) (list_ascii_of_string code) ->
   Rooms.sanitizedCode code = code).
Proof.
  repeat split.
  - induction code as [|c code IH]; simpl; constructor;
      [apply allowed_class, allowed_replacement | done].
  - rewrite sanitizedCode_chars. apply map_ext. intros c.
    destruct (Rooms.allowed c) eqn:E.
    + by rewrite bool_decide_eq_true_2 by (by apply allowed_class).
    + rewrite bool_decide_eq_false_2; [done|].
      intros Hc%allowed_class. congruence.
  - induction code as [|c code IH]; simpl; [done|].
    by rewrite IH, allowed_replacement.
  - induction code as [|c code IH]; simpl; [done|].
    intros [Hc%allowed_class Hr]%Forall_cons. by rewrite Hc, IH.
Qed.

Lemma sanitizedCode_canonical_witness :
  Forall (fun c => c ∈ key_characters) (list_ascii_of_string "snack-room_42") /\
  Rooms.sanitizedCode "snack-room_42" = "snack-room_42".
Proof.
  assert (Forall (fun c => c ∈ key_characters)
            (list_ascii_of_string "snack-room_42")) as Hkey
      by (apply (bool_decide_unpack
                   (Forall (fun c => c ∈ key_characters)
                           (list_ascii_of_string "snack-room_42")));
          vm_compute; exact I).
  split; [exact Hkey|].
  by apply (sanitizedCode_canonical "snack-room_42").
Defined.

(** ** Coercion of the loaded document *)

Lemma Rooms_coerce_fields (accessCode parsed : value) :
  is_object parsed = true ->
  let data := Rooms.coerce accessCode parsed in
  get data "count"
  = (if is_number (get parsed "count") then get parsed "count" else VNum (Num 0)) /\
  get data "log"
  = (if isArray (get parsed "log") then get parsed "log" else VArr [] []) /\
  get data "lastIncrementTime"
  = (if is_number (get parsed "lastIncrementTime")
     then get parsed "lastIncrementTime" else VNum (Num 0)) /\
  get data "pushSubscriptions"
  = (if isArray (get parsed "pushSubscriptions")
     then get parsed "pushSubscriptions" else VArr [] []) /\
  get data "accessCode"
  = (if is_string (get parsed "accessCode")
     then get parsed "accessCode" else accessCode) /\
  (forall k, k <> "count" -> k <> "log" -> k <> "lastIncrementTime" ->
             k <> "pushSubscriptions" -> k <> "accessCode" ->
             get data k = get parsed k).
Proof.
  intros Hobj. unfold Rooms.coerce. cbv zeta.
  repeat split; intros;
    repeat first
      [ rewrite get_ensure_ne by done
      | rewrite get_ensure_eq by (by rewrite ?is_object_ensure) ];
    done.
Qed.

(** C7: a primary document that parses to an object is loaded with each
    required field that is missing or of the wrong type set to its default,
    and every other field as the document has it; the document
    [{count: "5", log: null}] is loaded with count 0, an empty log and
    lastIncrementTime 0.  Nothing is written. *)
Theorem readData_coerces_fields (ft : faults) (code : string) (parsed : value) (s : fs) :
  s !! Rooms.dataFile_of code = Some (File (JsonText parsed)) ->
  is_object parsed = true ->
  exists data,
    Rooms.readData ft (VStr code) s = (Ok data, s) /\
    get data "count"
    = (if is_number (get parsed "count") then get parsed "count" else VNum (Num 0)) /\
    get data "log"
    = (if isArray (get parsed "log") then get parsed "log" else VArr [] []) /\
    get data "lastIncrementTime"
    = (if is_number (get parsed "lastIncrementTime")
       then get parsed "lastIncrementTime" else VNum (Num 0)) /\
    get data "pushSubscriptions"
    = (if isArray (get parsed "pushSubscriptions")
       then get parsed "pushSubscriptions" else VArr [] []) /\
    get data "accessCode"
    = (if is_string (get parsed "accessCode")
       then get parsed "accessCode" else VStr code) /\
    (forall k, k <> "count" -> k <> "log" -> k <> "lastIncrementTime" ->
               k <> "pushSubscriptions" -> k <> "accessCode" ->
               get data k = get parsed k) /\
    (parsed = VObj [("count", VStr "5"); ("log", VNull)] ->
     get data "count" = VNum (Num 0) /\ get data "log" = VArr [] [] /\
     get data "lastIncrementTime" = VNum (Num 0)).
Proof.
  intros Hdf Hobj. exists (Rooms.coerce (VStr code) parsed).
  split; [by apply Rooms_readData_document|].
  destruct (Rooms_coerce_fields (VStr code) parsed Hobj) as (?&?&?&?&?&?).
  repeat split; try done; by subst parsed.
Qed.

Lemma readData_coerces_fields_witness :
  let parsed := VObj [("count", VStr "5"); ("log", VNull); ("theme", VStr "dark")] in
  let s : fs := {[ Rooms.dataFile_of "den" := File (JsonText parsed) ]} in
  exists data,
    Rooms.readData no_faults (VStr "den") s = (Ok data, s) /\
    get data "count" = VNum (Num 0) /\ get data "log" = VArr [] [] /\
    get data "lastIncrementTime" = VNum (Num 0) /\
    get data "theme" = VStr "dark".
Proof.
  intros parsed s.
  destruct (readData_coerces_fields no_faults "den" parsed s)
    as (data & Hr & Hc & Hl & Ht & _ & _ & Hk & _); [reflexivity | reflexivity |].
  exists data. repeat split; [exact Hr | exact Hc | exact Hl | exact Ht |].
  by rewrite Hk.
Defined.

(** The single-room server coerces its three fields in the same way. *)
Lemma Single_readData_document (ft : faults) (parsed : value) (s : fs) :
  s !! Single.DATA_FILE = Some (File (JsonText parsed)) ->
  is_object parsed = true ->
  Single.readData ft s = (Ok (Single.coerce parsed), s).
Proof.
  intros Hdf Hobj. unfold Single.readData. unfold_io.
  rewrite Hdf. simpl. by rewrite not_object_test, Hobj.
Qed.

Example Single_readData_example (ft : faults) :
  Single.readData ft
    {[ Single.DATA_FILE := File (JsonText (VObj [("count", VStr "5"); ("log", VNull)])) ]}
  = (Ok (VObj [("count", VNum (Num 0)); ("log", VArr [] []);
               ("lastIncrementTime", VNum (Num 0))]),
     {[ Single.DATA_FILE := File (JsonText (VObj [("count", VStr "5"); ("log", VNull)])) ]}).
Proof. by rewrite (Single_readData_document ft (VObj [("count", VStr "5"); ("log", VNull)])). Qed.

(** ** Recovery from the backup *)

Lemma Rooms_writeData_at (ft : faults) (code : string) (data : value) :
  Rooms.writeData ft (VStr code) data = writeData_at ft (Rooms.dataFile_of code) data.
Proof. reflexivity. Qed.

Lemma Single_writeData_at (ft : faults) (data : value) :
  Single.writeData ft data = writeData_at ft Single.DATA_FILE data.
Proof. reflexivity. Qed.

(** Without faults, a fresh document replaces a primary document that is
    absent or readable (garbled or not); the old one becomes the backup. *)
Lemma Rooms_initializeData_ok (code : string) (s : fs) :
  s !! Rooms.dataFile_of code <> Some Unreadable ->
  exists s',
    Rooms.initializeData no_faults (VStr code) s
    = (Ok (Rooms.initialData (VStr code)), s') /\
    s' !! Rooms.dataFile_of code
    = Some (File (JsonText (Rooms.initialData (VStr code)))).
Proof.
  intros Hr.
  destruct (writeData_at_ok (Rooms.dataFile_of code)
              (Rooms.initialData (VStr code)) s) as [s' Hw]; try done.
  exists s'. split.
  - unfold Rooms.initializeData, bind. rewrite Rooms_writeData_at, Hw. done.
  - apply writeData_at_outcome in Hw as (_ & _ & Hok).
    by destruct (Hok eq_refl) as (_ & _ & _ & _ & -> & _).
Qed.

(** C6, amended: when the primary document cannot be read or parsed, a
    backup that parses to a truthy value (an object, an array, a number
    other than 0, a non-empty string, true) is returned as it is and nothing
    is written; with any other backup (absent, unreadable, unparseable, or
    parsing to null, false, 0 or the empty string) [readData] is
    [initializeData], which over an unparseable primary document returns
    the fresh state when nothing fails. *)
Theorem readData_recovery (ft : faults) (code : string) (s : fs) :
  s !! Rooms.dataFile_of code = Some Unreadable \/
  s !! Rooms.dataFile_of code = Some (File Garbled) ->
  (forall v, s !! backupFile (Rooms.dataFile_of code) = Some (File (JsonText v)) ->
             truthy v = true ->
             Rooms.readData ft (VStr code) s = (Ok v, s)) /\
  ((forall v, s !! backupFile (Rooms.dataFile_of code) = Some (File (JsonText v)) ->
              truthy v = false) ->
   Rooms.readData ft (VStr code) s = Rooms.initializeData ft (VStr code) s) /\
  (s !! Rooms.dataFile_of code = Some (File Garbled) ->
   exists s', Rooms.initializeData no_faults (VStr code) s
              = (Ok (Rooms.initialData (VStr code)), s')).
Proof.
  intros Hbroken. repeat split.
  - intros v Hb Hv. rewrite Rooms_readData_broken by done.
    unfold bind. rewrite (Rooms_restore_backup code s v Hb). by rewrite Hv.
  - intros Hb. rewrite Rooms_readData_broken by done.
    destruct (Rooms_restore_nothing code s Hb) as (v & Hr & Hv).
    unfold bind. rewrite Hr. by rewrite Hv.
  - intros Hg. destruct (Rooms_initializeData_ok code s) as (s' & Hi & _).
    + by rewrite Hg.
    + eauto.
Qed.

Lemma readData_recovery_witness :
  let saved := VObj [("count", VNum (Num 3)); ("log", VArr [] [])] in
  let s : fs := {[ Rooms.dataFile_of "den" := File Garbled;
                   backupFile (Rooms.dataFile_of "den") := File (JsonText saved) ]} in
  Rooms.readData no_faults (VStr "den") s = (Ok saved, s).
Proof.
  intros saved s.
  apply (readData_recovery no_faults "den" s); [right; reflexivity | reflexivity | reflexivity].
Defined.

(** C6 as stated fails: the backup [null] is parseable, and [readData]
    returns the fresh state, not the backup's contents. *)
Lemma readData_null_backup :
  let s : fs := {[ Rooms.dataFile_of "den" := File Garbled;
                   backupFile (Rooms.dataFile_of "den") := File (JsonText VNull) ]} in
  s !! Rooms.dataFile_of "den" = Some (File Garbled) /\
  s !! backupFile (Rooms.dataFile_of "den") = Some (File (JsonText VNull)) /\
  JSON_parse (JsonText VNull) = Ok VNull /\
  fst (Rooms.readData no_faults (VStr "den") s) = Ok (Rooms.initialData (VStr "den")) /\
  fst (Rooms.readData no_faults (VStr "den") s) <> Ok VNull.
Proof. by vm_compute. Qed.

(** ** Persist, then load *)

Lemma valid_state_fields (data : value) :
  valid_state data = true ->
  is_object data = true /\ is_number (get data "count") = true /\
  isArray (get data "log") = true /\
  is_number (get data "lastIncrementTime") = true /\
  isArray (get data "pushSubscriptions") = true /\
  is_string (get data "accessCode") = true /\ json_clean data = true.
Proof.
  unfold valid_state. intros H.
  do 6 (apply andb_true_iff in H as [H ?]). done.
Qed.

Lemma Rooms_coerce_valid (accessCode data : value) :
  valid_state data = true -> Rooms.coerce accessCode data = data.
Proof.
  intros (?&?&?&?&?&?&?)%valid_state_fields.
  unfold Rooms.coerce. cbv zeta.
  rewrite (ensure_id is_number "count") by done.
  rewrite (ensure_id isArray "log") by done.
  rewrite (ensure_id is_number "lastIncrementTime") by done.
  rewrite (ensure_id isArray "pushSubscriptions") by done.
  by rewrite (ensure_id is_string "accessCode").
Qed.

Lemma persistable_fields (data : value) :
  persistable data = true ->
  is_object data = true /\ is_number (get data "count") = true /\
  isArray (get data "log") = true /\
  is_number (get data "lastIncrementTime") = true /\
  absent_or isArray (get data "pushSubscriptions") = true /\
  absent_or is_string (get data "accessCode") = true /\ json_clean data = true.
Proof.
  unfold persistable. intros H.
  do 6 (apply andb_true_iff in H as [H ?]). done.
Qed.

Lemma valid_state_persistable (data : value) :
  valid_state data = true -> persistable data = true.
Proof.
  intros (Ho & Hc & Hl & Ht & Hp & Ha & Hj)%valid_state_fields.
  unfold persistable. rewrite Ho, Hc, Hl, Ht, Hj. simpl.
  by destruct (get data "pushSubscriptions"), (get data "accessCode").
Qed.

Lemma absent_or_kept (ok : value -> bool) (v dflt : value) :
  absent_or ok v = true -> v <> VUndefined -> (if ok v then v else dflt) = v.
Proof. destruct v; simpl; try done; by intros ->. Qed.

(** C8: a room state that [writeData] has written is what [readData] of
    the same access code returns: every field of the state has the same
    value in the state that is loaded, which is the state itself when it has
    all the fields of the data model.  The write succeeds when nothing fails
    and the document it replaces is readable. *)
Theorem persist_then_load (code : string) (data : value) (s : fs) :
  persistable data = true ->
  (s !! Rooms.dataFile_of code <> Some Unreadable ->
   exists s1, Rooms.writeData no_faults (VStr code) data s = (Ok tt, s1)) /\
  (forall ft ft' s1,
     Rooms.writeData ft (VStr code) data s = (Ok tt, s1) ->
     exists loaded,
       Rooms.readData ft' (VStr code) s1 = (Ok loaded, s1) /\
       (forall k, get data k <> VUndefined -> get loaded k = get data k) /\
       (valid_state data = true -> loaded = data)).
Proof.
  intros Hp.
  destruct (persistable_fields data Hp) as (Hobj & Hc & Hlog & Ht & Hsub & Hcode & Hclean).
  split.
  - intros Hr. rewrite Rooms_writeData_at. apply writeData_at_ok; try done.
    all: intros E; by rewrite E in Hlog.
  - intros ft ft' s1 Hw. rewrite Rooms_writeData_at in Hw.
    apply writeData_at_outcome in Hw as (_ & _ & Hok).
    destruct (Hok eq_refl) as (_ & _ & _ & _ & Hdoc & _).
    unfold JSON_stringify in Hdoc. rewrite to_json_clean in Hdoc by done.
    exists (Rooms.coerce (VStr code) data).
    split; [by apply Rooms_readData_document|]. split.
    + destruct (Rooms_coerce_fields (VStr code) data Hobj)
        as (Hc' & Hl' & Ht' & Hs' & Ha' & Hk').
      intros k Hk.
      destruct (decide (k = "count")) as [->|]; [by rewrite Hc', Hc|].
      destruct (decide (k = "log")) as [->|]; [by rewrite Hl', Hlog|].
      destruct (decide (k = "lastIncrementTime")) as [->|]; [by rewrite Ht', Ht|].
      destruct (decide (k = "pushSubscriptions")) as [->|];
        [rewrite Hs'; by apply absent_or_kept|].
      destruct (decide (k = "accessCode")) as [->|];
        [rewrite Ha'; by apply absent_or_kept|].
      by apply Hk'.
    + apply Rooms_coerce_valid.
Qed.

Lemma persist_then_load_witness :
  let data :=
    VObj [("accessCode", VStr "den"); ("count", VNum (Num 2));
          ("log", VArr [VObj [("id", VStr "1700000020000"); ("timestamp", VStr "t2");
                              ("count", VNum (Num 2)); ("username", VStr "Ed")];
                        VObj [("id", VStr "1700000000000"); ("timestamp", VStr "t1");
                              ("count", VNum (Num 1)); ("username", VStr "Anonymous")]] []);
          ("lastIncrementTime", VNum (Num 1700000020000));
          ("pushSubscriptions", VArr [] [])] in
  exists s1, Rooms.writeData no_faults (VStr "den") data ∅ = (Ok tt, s1) /\
             Rooms.readData no_faults (VStr "den") s1 = (Ok data, s1).
Proof.
  intros data.
  destruct (persist_then_load "den" data ∅) as [Hw Hr]; [reflexivity|].
  destruct Hw as [s1 Hw]; [done|].
  destruct (Hr no_faults no_faults s1 Hw) as (loaded & Hload & _ & Hsame).
  exists s1. split; [exact Hw|]. by rewrite <- (Hsame eq_refl).
Defined.

(** ** Failure of the write *)

(** C5: [writeData] throws the invalid-data error exactly when the data is
    not a non-null object.  When it fails in the validation or in one of the
    writes (the backup copy, the temporary file, the rename), the error
    reaches the caller, the data file is as it was, and the temporary file
    is gone, as long as removing it does not fail in turn.  It returns
    normally only when no step failed and the data file holds the new
    document. *)
Theorem writeData_failure (ft : faults) (dataFile : string) (data : value)
    (s s' : fs) (r : res unit) :
  writeData_at ft dataFile data s = (r, s') ->
  (r = Throw InvalidData <-> is_object data = false) /\
  (forall e, r = Throw e -> e = InvalidData \/ e = IOError ->
     s' !! dataFile = s !! dataFile /\
     (f_unlink ft = false -> s' !! tempFile dataFile = None)) /\
  (r = Ok tt ->
     f_write ft = WriteOk /\ f_rename ft = false /\
     (s !! dataFile = None \/ f_copy ft = false) /\
     s' !! dataFile = Some (File (JSON_stringify data))).
Proof.
  intros Hw. apply writeData_at_outcome in Hw as (Hinv & Hfail & Hok).
  split; [exact Hinv|]. split; [exact Hfail|].
  intros Hr. destruct (Hok Hr) as (_ & ? & ? & Hc & ? & _).
  repeat split; try done. destruct Hc as [?|[? _]]; eauto.
Qed.

Lemma writeData_failure_witness :
  let old := File (JsonText (VObj [("count", VNum (Num 1))])) in
  let s : fs := {[ Single.DATA_FILE := old ]} in
  let ft := {| f_copy := false; f_write := WriteFailsPartway;
               f_rename := false; f_unlink := false |} in
  let data := VObj [("count", VNum (Num 2)); ("log", VArr [] [])] in
  fst (Single.writeData ft data s) = Throw IOError /\
  snd (Single.writeData ft data s) !! Single.DATA_FILE = Some old /\
  snd (Single.writeData ft data s) !! tempFile Single.DATA_FILE = None.
Proof.
  intros old s ft data.
  destruct (writeData_failure ft Single.DATA_FILE data s
              (snd (Single.writeData ft data s)) (Throw IOError))
    as (_ & Hfail & _); [reflexivity|].
  destruct (Hfail IOError) as [Hdoc Htmp]; [reflexivity | by right |].
  split; [reflexivity|]. split; [exact Hdoc | exact (Htmp eq_refl)].
Defined.

(** The log line that ends the try block is after the rename: on a state
    without a log, [writeData] throws with the document already replaced. *)
Lemma writeData_log_line_throws :
  fst (writeData_at no_faults Single.DATA_FILE (VObj []) ∅) = Throw TypeError /\
  snd (writeData_at no_faults Single.DATA_FILE (VObj []) ∅) !! Single.DATA_FILE
  = Some (File (JsonText (VObj []))).
Proof. split; vm_compute; reflexivity. Qed.

(** ** The handlers: arithmetic, search and sort *)

Example parseInt_examples :
  parseInt "12abc" = Num 12 /\ parseInt " -7" = Num (-7) /\
  parseInt "0x1f" = Num 31 /\ parseInt "abc" = NaN /\ parseInt "" = NaN.
Proof. by vm_compute. Qed.

Lemma parse_digits_acc (d : Decimal.uint) (a : positive) :
  parse_digits 10 (NilEmpty.string_of_uint d) (Some (Z.pos a))
  = Some (Z.pos (Pos.of_uint_acc d a)).
Proof.
  revert a. induction d; intros a; simpl; [done|..];
    match goal with
    | |- parse_digits _ _ (Some ?x) = Some (Z.pos (Pos.of_uint_acc _ ?y)) =>
        replace x with (Z.pos y) by (vm_compute (nat_of_ascii _); lia);
        apply IHd
    end.
Qed.

Lemma parse_digits_zero (d : Decimal.uint) :
  parse_digits 10 (NilEmpty.string_of_uint d) (Some 0%Z)
  = Some (Z.of_N (Pos.of_uint d)).
Proof. induction d; simpl; try done; apply (parse_digits_acc d). Qed.

Lemma parseInt_uint (d : Decimal.uint) :
  d <> Decimal.Nil ->
  parseInt (NilEmpty.string_of_uint d) = Num (Z.of_N (Pos.of_uint d)).
Proof.
  intros Hd.
  assert (parseInt (NilEmpty.string_of_uint d)
          = match parse_digits 10 (NilEmpty.string_of_uint d) (Some 0%Z) with
            | Some n => Num (1 * n)
            | None => NaN
            end) as ->.
  { destruct d as [|d|d|d|d|d|d|d|d|d|d]; try done; destruct d; reflexivity. }
  rewrite parse_digits_zero. f_equal. lia.
Qed.

(** The id of an entry is read back as the time it was made from. *)
Lemma parseInt_toString (z : Z) : (0 <= z)%Z -> parseInt (toString z) = Num z.
Proof.
  intros Hz. destruct z as [|p|p]; [done | | lia].
  unfold toString. simpl.
  pose proof (Unsigned.to_uint_nonnil p) as Hnn.
  replace (NilZero.string_of_uint (Pos.to_uint p))
    with (NilEmpty.string_of_uint (Pos.to_uint p))
    by (by destruct (Pos.to_uint p)).
  rewrite parseInt_uint by done. by rewrite DecimalPos.Unsigned.of_to.
Qed.

Lemma ceil_div_spec (a b : Z) :
  (0 < b)%Z -> (b * (ceil_div a b - 1) < a <= b * ceil_div a b)%Z.
Proof.
  intros Hb. unfold ceil_div.
  pose proof (Z.div_mod (- a) b) as Hdm.
  pose proof (Z.mod_pos_bound (- a) b Hb). lia.
Qed.

Lemma assoc_set_set k x y l : assoc_set k y (assoc_set k x l) = assoc_set k y l.
Proof.
  induction l as [|[k' v] l IH]; simpl.
  - by rewrite String.eqb_refl.
  - destruct (String.eqb k k') eqn:E; simpl; rewrite E; [done | by rewrite IH].
Qed.

Lemma set_set v k x y : set (set v k x) k y = set v k y.
Proof. destruct v; simpl; try done; by rewrite assoc_set_set. Qed.

Lemma id_is_true (logId : string) (entry : value) :
  id_is logId entry = true <-> get entry "id" = VStr logId.
Proof.
  unfold id_is. destruct (get entry "id"); try done.
  destruct (String.eqb_spec s logId); split; congruence.
Qed.

Lemma findIndex_none (logId : string) (l : list value) :
  findIndex logId l = Ok None -> Forall (fun entry => id_is logId entry = false) l.
Proof.
  induction l as [|e l IH]; simpl; [constructor|].
  destruct (nullish e); [done|]. destruct (id_is logId e) eqn:Eid; [done|].
  destruct (findIndex logId l) as [[i|]|err]; try done.
  intros _. constructor; [done | by apply IH].
Qed.

(** [findIndex] returns the first position whose entry has the id. *)
Lemma findIndex_some (logId : string) (l : list value) (i : nat) :
  findIndex logId l = Ok (Some i) ->
  (exists entry, l !! i = Some entry /\ id_is logId entry = true) /\
  Forall (fun entry => id_is logId entry = false) (take i l).
Proof.
  revert i. induction l as [|e l IH]; simpl; [done|]. intros i.
  destruct (nullish e); [done|]. destruct (id_is logId e) eqn:Eid.
  - intros [= <-]. simpl. split; [eauto | constructor].
  - destruct (findIndex logId l) as [[j|]|err]; try done.
    intros [= <-]. destruct (IH j eq_refl) as [Hex Hbefore].
    simpl. split; [done | by constructor].
Qed.

Lemma insert_sorted_head (x : number * value) (l : list (number * value)) :
  numeric x -> Forall numeric l ->
  exists y r, insert_sorted x l = y :: r /\ numeric y /\
    (y = x \/ head l = Some y) /\ (key_of x <= key_of y)%Z /\
    (forall h, head l = Some h -> (key_of h <= key_of y)%Z).
Proof.
  intros [zx Hx] Hl. destruct l as [|h l]; simpl.
  - exists x, []. repeat split; eauto; try lia. by exists zx. done.
  - apply Forall_cons in Hl as [[zh Hh] _].
    unfold by_id_desc, key_of. rewrite Hx, Hh. simpl.
    destruct (0 <? zh - zx)%Z eqn:E.
    + exists h, (insert_sorted x l). rewrite Hh.
      repeat split; eauto; try lia. by exists zh. intros ? [= <-]. rewrite Hh. lia.
    + exists x, (h :: l). rewrite Hx.
      repeat split; eauto; try lia. by exists zx. intros ? [= <-]. rewrite Hh. lia.
Qed.

Lemma insert_sorted_numeric (x : number * value) (l : list (number * value)) :
  numeric x -> Forall numeric l -> Forall numeric (insert_sorted x l).
Proof.
  intros Hx. induction l as [|y l IH]; simpl; intros Hl.
  - by repeat constructor.
  - apply Forall_cons in Hl as [Hy Hl].
    destruct (0 <? by_id_desc x y)%Z; repeat constructor; auto.
Qed.

Lemma sort_numeric (l : list (number * value)) :
  Forall numeric l -> Forall numeric (sort l).
Proof.
  induction l as [|x l IH]; simpl; [done|]. intros [Hx Hl]%Forall_cons.
  apply insert_sorted_numeric; auto.
Qed.

Lemma sort_head (l : list (number * value)) :
  Forall numeric l -> l <> [] ->
  exists y r, sort l = y :: r /\ numeric y /\ y ∈ l /\
              Forall (fun x => (key_of x <= key_of y)%Z) l.
Proof.
  induction l as [|x l IH]; [done|]. intros [Hx Hl]%Forall_cons _. simpl.
  destruct l as [|x' l'].
  - simpl. exists x, []. repeat split; try done; [by left | by repeat constructor].
  - destruct IH as (y & r & Hs & Hy & Hin & Hmax); [done | done |].
    pose proof (sort_numeric _ Hl) as Hsorted. rewrite Hs in *.
    destruct (insert_sorted_head x (y :: r)) as (y' & r' & Hi & Hy' & Hor & Hxy & Hh);
      [done | done |].
    exists y', r'. split; [done|]. split; [done|]. split.
    + apply elem_of_cons. destruct Hor as [->|[= <-]]; auto.
    + specialize (Hh y eq_refl). constructor; [done|].
      eapply Forall_impl; [exact Hmax|]. simpl. intros; lia.
Qed.

(** ** The body of the handlers, given what [readData] returns *)

Lemma get_is_object (v : value) (k : string) :
  get v k <> VUndefined -> is_object v = true.
Proof. by destruct v. Qed.

Section HandlerFacts.
Variable readData : io value.
Variable writeData : value -> io unit.
Variable entry_rest : value -> list (string * value).
Variables (data : value) (s : fs).
Hypothesis Hload : readData s = (Ok data, s).

Lemma increment_rate_limited (now : Z) (timestamp : string) (id_now t : Z) :
  get data "lastIncrementTime" = VNum (Num t) ->
  (now - t < 20000)%Z ->
  increment readData writeData entry_rest now timestamp id_now s
  = Some (RateLimited429 (Num (ceil_div (20000 - (now - t)) 1000)), s).
Proof.
  intros Ht Hlt. unfold increment. rewrite Hload, Ht. simpl.
  by destruct (Z.ltb_spec (now - t) 20000); [|lia].
Qed.

Lemma increment_allowed (now : Z) (timestamp : string) (id_now c t : Z)
    (l : list value) (p : list (string * value)) (s' : fs) :
  get data "count" = VNum (Num c) ->
  get data "log" = VArr l p ->
  get data "lastIncrementTime" = VNum (Num t) ->
  (20000 <= now - t)%Z ->
  writeData (incremented entry_rest data now timestamp id_now c l p) s = (Ok tt, s') ->
  increment readData writeData entry_rest now timestamp id_now s
  = Some (Json200 (incremented entry_rest data now timestamp id_now c l p), s').
Proof.
  intros Hc Hl Ht Hge. unfold incremented, increment. rewrite Hload, Ht. simpl.
  destruct (Z.ltb_spec (now - t) 20000); [lia|].
  rewrite Hc. simpl. rewrite !get_set_ne, Hl by done.
  destruct (20 <? S (length l))%nat eqn:Elen.
  - rewrite set_set. by intros ->.
  - apply Nat.ltb_ge in Elen. rewrite (take_ge l 19) by lia.
    by intros ->.
Qed.

Lemma incremented_fields (now : Z) (timestamp : string) (id_now c : Z)
    (l : list value) (p : list (string * value)) :
  is_object data = true ->
  let data' := incremented entry_rest data now timestamp id_now c l p in
  is_object data' = true /\
  get data' "count" = VNum (Num (c + 1)) /\
  get data' "lastIncrementTime" = VNum (Num now) /\
  (exists p',
     get data' "log"
     = VArr (take 20 (VObj (("id", VStr (toString id_now))
                              :: ("timestamp", VStr timestamp)
                              :: entry_rest
                                   (set (set data "count" (VNum (Num (c + 1))))
                                        "lastIncrementTime" (VNum (Num now))))
                        :: l)) p') /\
  (forall k, k <> "count" -> k <> "log" -> k <> "lastIncrementTime" ->
             get data' k = get data k).
Proof.
  intros Hobj. unfold incremented. cbv zeta. repeat split.
  - by rewrite !is_object_set.
  - rewrite !get_set_ne by done. by apply get_set_eq.
  - rewrite get_set_ne by done. apply get_set_eq. by rewrite is_object_set.
  - eexists. apply get_set_eq. by rewrite !is_object_set.
  - intros k ? ? ?. by rewrite !get_set_ne.
Qed.

Lemma deleteEntry_not_found (logId : string) (l : list value)
    (p : list (string * value)) :
  get data "log" = VArr l p ->
  findIndex logId l = Ok None ->
  deleteEntry readData writeData logId s = Some (NotFound404, s).
Proof. intros Hl Hf. unfold deleteEntry. by rewrite Hload, Hl, Hf. Qed.

Lemma deleteEntry_found (logId : string) (l : list value)
    (p : list (string * value)) (i : nat) (last : number) (s' : fs) :
  get data "log" = VArr l p ->
  findIndex logId l = Ok (Some i) ->
  recalculated (delete i l) = Some last ->
  writeData (deleted data i l p last) s = (Ok tt, s') ->
  deleteEntry readData writeData logId s = Some (Json200 (deleted data i l p last), s').
Proof.
  intros Hl Hf Hrec Hw. unfold deleteEntry, deleted in *.
  by rewrite Hload, Hl, Hf, Hrec, Hw.
Qed.

Lemma deleted_fields (i : nat) (l : list value) (p : list (string * value))
    (last : number) :
  is_object data = true ->
  let data' := deleted data i l p last in
  is_object data' = true /\
  get data' "log" = VArr (delete i l) p /\
  get data' "count" = VNum (Num (Z.of_nat (length (delete i l)))) /\
  get data' "lastIncrementTime" = VNum last /\
  (forall k, k <> "count" -> k <> "log" -> k <> "lastIncrementTime" ->
             get data' k = get data k).
Proof.
  intros Hobj. unfold deleted. cbv zeta. repeat split.
  - by rewrite !is_object_set.
  - rewrite !get_set_ne by done. by apply get_set_eq.
  - rewrite get_set_ne by done. apply get_set_eq. by rewrite is_object_set.
  - apply get_set_eq. by rewrite !is_object_set.
  - intros k ? ? ?. by rewrite !get_set_ne.
Qed.
End HandlerFacts.

(** ** The largest id *)

Lemma with_id_numbers_numeric (l : list value) (zs : list Z) :
  Forall2 numeric_id l zs ->
  exists keyed, with_id_numbers l = Some keyed /\ map fst keyed = map Num zs.
Proof.
  induction 1 as [|e z l zs (Hn & sid & Hid & Hp) _ (keyed & Hk & Hm)]; simpl.
  - by exists [].
  - exists ((Num z, e) :: keyed). rewrite Hk. split; [|by rewrite <- Hm].
    unfold id_number. rewrite Hid, Hp. by destruct e.
Qed.

Lemma recalculated_empty : recalculated [] = Some (Num 0).
Proof. reflexivity. Qed.

(** After a deletion that leaves entries, all with numeric ids,
    [lastIncrementTime] is the largest of the ids, wherever it is in the
    log. *)
Lemma recalculated_largest (l : list value) (zs : list Z) :
  Forall2 numeric_id l zs -> l <> [] ->
  exists m, recalculated l = Some (Num m) /\ m ∈ zs /\ Forall (fun z => (z <= m)%Z) zs.
Proof.
  intros Hl Hne. destruct (with_id_numbers_numeric l zs Hl) as (keyed & Hk & Hm).
  assert (Hnum : Forall numeric keyed).
  { apply Forall_forall. intros [n e] Hin.
    assert (n ∈ map fst keyed) as Hn by (apply list_elem_of_fmap; by exists (n, e)).
    rewrite Hm in Hn. apply list_elem_of_fmap in Hn as (z & -> & _). by exists z. }
  assert (keyed <> []) as Hkne.
  { intros ->. destruct zs; [|done]. inversion Hl; by subst. }
  destruct (sort_head keyed Hnum Hkne) as ([n e] & r & Hs & [m Hy] & Hin & Hmax).
  simpl in Hy. subst n. exists m. split; [|split].
  - unfold recalculated. destruct l; [done|]. simpl length. simpl Nat.ltb.
    cbv iota. by rewrite Hk, Hs.
  - assert (Num m ∈ map fst keyed) as Hn
        by (apply list_elem_of_fmap; by exists (Num m, e)).
    rewrite Hm in Hn. by apply list_elem_of_fmap in Hn as (z & [= ->] & ?).
  - apply Forall_forall. intros z Hz.
    assert (Num z ∈ map fst keyed) as Hn
        by (rewrite Hm; apply list_elem_of_fmap; by exists z).
    apply list_elem_of_fmap in Hn as ([n' e'] & Hn' & Hin').
    rewrite Forall_forall in Hmax. specialize (Hmax _ Hin').
    simpl in Hn'. subst n'. by unfold key_of in Hmax.
Qed.

(** The entries that the handlers create have numeric ids. *)
Lemma created_entry_numeric_id (id_now : Z) (rest : list (string * value)) :
  (0 <= id_now)%Z ->
  numeric_id (VObj (("id", VStr (toString id_now)) :: rest)) id_now.
Proof.
  intros Hz. split; [done|]. exists (toString id_now).
  split; [done | by apply parseInt_toString].
Qed.

(** ** The single-room handlers *)

Section SingleRoom.
Variables (data : value) (s : fs).
Variables (c t : Z) (l : list value) (p : list (string * value)).
Hypothesis Hdoc : s !! Single.DATA_FILE = Some (File (JsonText data)).
Hypothesis Hcount : get data "count" = VNum (Num c).
Hypothesis Hlog : get data "log" = VArr l p.
Hypothesis Htime : get data "lastIncrementTime" = VNum (Num t).

Lemma Single_state_is_object : is_object data = true.
Proof. apply (get_is_object data "count"). by rewrite Hcount. Qed.

Lemma Single_readData_state (ft : faults) : Single.readData ft s = (Ok data, s).
Proof.
  rewrite (Single_readData_document ft data s Hdoc Single_state_is_object).
  unfold Single.coerce. cbv zeta.
  rewrite (ensure_id is_number "count") by (by rewrite Hcount).
  rewrite (ensure_id isArray "log") by (by rewrite Hlog).
  rewrite (ensure_id is_number "lastIncrementTime") by (by rewrite Htime).
  done.
Qed.

Lemma Single_writeData_ok (data' : value) (l' : list value)
    (p' : list (string * value)) :
  is_object data' = true ->
  get data' "log" = VArr l' p' ->
  exists s', Single.writeData no_faults data' s = (Ok tt, s') /\
    s' !! Single.DATA_FILE = Some (File (JSON_stringify data')) /\
    s' !! tempFile Single.DATA_FILE = None /\
    s' !! backupFile Single.DATA_FILE = Some (File (JsonText data)).
Proof.
  intros Hobj Hl'. rewrite Single_writeData_at.
  destruct (writeData_at_ok Single.DATA_FILE data' s) as [s' Hw];
    try done; try (by rewrite Hl'); try (by rewrite Hdoc).
  exists s'. split; [done|].
  apply writeData_at_outcome in Hw as (_ & _ & Hok).
  destruct (Hok eq_refl) as (_ & _ & _ & _ & ? & ? & Hb & _).
  by rewrite Hdoc in Hb.
Qed.

(** Within 20 seconds of the last increment the handler answers 429 with
    the seconds that remain, rounded up, and the file system is as it was. *)
Lemma Single_increment_rate_limited (ft : faults) (now : Z) (timestamp : string)
    (id_now : Z) :
  (now - t < 20000)%Z ->
  Single.increment ft now timestamp id_now s
  = Some (RateLimited429 (Num (ceil_div (20000 - (now - t)) 1000)), s).
Proof.
  intros Hlt. unfold Single.increment.
  by apply (increment_rate_limited _ _ _ data s (Single_readData_state ft)).
Qed.

Lemma Single_increment_allowed (now : Z) (timestamp : string) (id_now : Z) :
  (20000 <= now - t)%Z ->
  exists data' s',
    Single.increment no_faults now timestamp id_now s = Some (Json200 data', s') /\
    get data' "count" = VNum (Num (c + 1)) /\
    get data' "lastIncrementTime" = VNum (Num now) /\
    (exists p',
       get data' "log"
       = VArr (take 20 (VObj [("id", VStr (toString id_now));
                              ("timestamp", VStr timestamp);
                              ("count", VNum (Num (c + 1)))] :: l)) p') /\
    (forall k, k <> "count" -> k <> "log" -> k <> "lastIncrementTime" ->
               get data' k = get data k) /\
    s' !! Single.DATA_FILE = Some (File (JSON_stringify data')) /\
    s' !! backupFile Single.DATA_FILE = Some (File (JsonText data)).
Proof.
  intros Hge.
  pose proof (incremented_fields Single.entry_rest data now timestamp id_now c l p
                Single_state_is_object) as (Hobj' & Hc' & Ht' & [p' Hl'] & Hk').
  destruct (Single_writeData_ok _ _ _ Hobj' Hl') as (s' & Hw & Hfile & _ & Hbackup).
  eexists _, s'. split.
  { unfold Single.increment.
    by apply (increment_allowed _ _ _ data s (Single_readData_state no_faults)
                now timestamp id_now c t l p s'). }
  repeat split; try done. exists p'. rewrite Hl'.
  unfold Single.entry_rest. rewrite get_set_ne by done.
  by rewrite get_set_eq by apply Single_state_is_object.
Qed.

(** No entry has the id: 404, and the file system is as it was. *)
Lemma Single_deleteEntry_not_found (ft : faults) (logId : string) :
  Forall (fun entry => nullish entry = false /\ get entry "id" <> VStr logId) l ->
  Single.deleteEntry ft logId s = Some (NotFound404, s).
Proof.
  intros Hall. unfold Single.deleteEntry.
  apply (deleteEntry_not_found _ _ data s (Single_readData_state ft) logId l p Hlog).
  clear Hlog. induction Hall as [|e l' [Hn Hid] _ IH]; simpl; [done|].
  rewrite Hn. destruct (id_is logId e) eqn:E; [by apply id_is_true in E|].
  by rewrite IH.
Qed.

(** The first entry with the id is removed; the count is the length of
    what is left, and [lastIncrementTime] the largest id left, or 0. *)
Lemma Single_deleteEntry_found (logId : string) (i : nat) (zs : list Z) :
  findIndex logId l = Ok (Some i) ->
  Forall2 numeric_id (delete i l) zs ->
  exists data' s' m,
    Single.deleteEntry no_faults logId s = Some (Json200 data', s') /\
    get data' "log" = VArr (delete i l) p /\
    get data' "count" = VNum (Num (Z.of_nat (length (delete i l)))) /\
    get data' "lastIncrementTime" = VNum (Num m) /\
    (zs = [] /\ m = 0%Z \/ m ∈ zs /\ Forall (fun z => (z <= m)%Z) zs) /\
    (forall k, k <> "count" -> k <> "log" -> k <> "lastIncrementTime" ->
               get data' k = get data k) /\
    s' !! Single.DATA_FILE = Some (File (JSON_stringify data')) /\
    s' !! backupFile Single.DATA_FILE = Some (File (JsonText data)).
Proof.
  intros Hfound Hids.
  assert (exists m, recalculated (delete i l) = Some (Num m) /\
            (zs = [] /\ m = 0%Z \/ m ∈ zs /\ Forall (fun z => (z <= m)%Z) zs))
    as (m & Hrec & Hm).
  { destruct (delete i l) as [|e r] eqn:E.
    - exists 0%Z. split; [done|]. left. by inversion Hids.
    - destruct (recalculated_largest (e :: r) zs Hids) as (m & ? & ? & ?); [done|].
      exists m. auto. }
  pose proof (deleted_fields data i l p (Num m) Single_state_is_object)
    as (Hobj' & Hl' & Hc' & Ht' & Hk').
  destruct (Single_writeData_ok _ _ _ Hobj' Hl') as (s' & Hw & Hfile & _ & Hbackup).
  eexists _, s', m. split.
  { unfold Single.deleteEntry.
    by apply (deleteEntry_found _ _ data s (Single_readData_state no_faults)
                logId l p i (Num m) s'). }
  repeat split; done.
Qed.
End SingleRoom.

(** ** The count and the log after a mutation *)

Lemma increment_success (readData : io value) (writeData : value -> io unit)
    (entry_rest : value -> list (string * value))
    (now : Z) (timestamp : string) (id_now : Z) (s s' : fs) (body : value) :
  increment readData writeData entry_rest now timestamp id_now s
  = Some (Json200 body, s') ->
  exists data s1 c l p l' p',
    readData s = (Ok data, s1) /\
    get data "count" = VNum c /\ get data "log" = VArr l p /\
    get body "count" = VNum (nadd c (Num 1)) /\
    get body "log" = VArr l' p' /\
    length l' = Nat.min 20 (S (length l)).
Proof.
  unfold increment. destruct (readData s) as [[data|e] s1] eqn:Hr; [|done].
  destruct (get data "lastIncrementTime") as [| | |last| | |] eqn:Ht; try done.
  destruct (nlt _ _); [done|].
  destruct (get data "count") as [| | |c| | |] eqn:Hc; try done.
  assert (is_object data = true) as Hobj
      by (apply (get_is_object data "count"); by rewrite Hc).
  rewrite !get_set_ne by done.
  destruct (get data "log") as [| | | | |l p|] eqn:Hl; try done.
  match goal with |- context [writeData ?d s1] => set (data' := d) end.
  destruct (writeData data' s1) as [[[]|e] s2]; [|done].
  intros [= <- <-]. exists data, s1, c, l, p.
  assert (get data' "count" = VNum (nadd c (Num 1))) as Hc'.
  { subst data'. destruct (20 <? _)%nat; rewrite !get_set_ne by done;
      apply get_set_eq, Hobj. }
  subst data'. destruct (20 <? length (_ :: l))%nat eqn:Elen.
  - eexists _, _. repeat split; try done.
    + apply get_set_eq. by rewrite !is_object_set.
    + apply Nat.ltb_lt in Elen. rewrite length_take.
      rewrite length_cons in *. lia.
  - eexists _, _. repeat split; try done.
    + apply get_set_eq. by rewrite !is_object_set.
    + apply Nat.ltb_ge in Elen. rewrite length_cons in *. lia.
Qed.

Lemma deleteEntry_success (readData : io value) (writeData : value -> io unit)
    (logId : string) (s s' : fs) (body : value) :
  deleteEntry readData writeData logId s = Some (Json200 body, s') ->
  exists l p, get body "log" = VArr l p /\
              get body "count" = VNum (Num (Z.of_nat (length l))).
Proof.
  unfold deleteEntry. destruct (readData s) as [[data|e] s1] eqn:Hr; [|done].
  destruct (get data "log") as [| | | | |l p|] eqn:Hl; try done.
  assert (is_object data = true) as Hobj
      by (apply (get_is_object data "log"); by rewrite Hl).
  destruct (findIndex logId l) as [[i|]|e]; try done.
  destruct (recalculated _) as [last|]; [|done].
  destruct (writeData _ s1) as [[[]|e] s2]; [|done].
  intros [= <- <-]. exists (delete i l), p. split.
  - rewrite !get_set_ne by done. by apply get_set_eq.
  - rewrite get_set_ne by done. apply get_set_eq. by rewrite is_object_set.
Qed.

(** C1, amended: after a successful deletion the count is the length of
    the log.  After a successful increment the count is the count that was
    loaded plus one, and the log has one entry more than the log that was
    loaded, up to 20: when the count was the length of the log before, it
    is so afterwards exactly when the log had fewer than 20 entries. *)
Theorem count_after_mutation (readData : io value) (writeData : value -> io unit)
    (entry_rest : value -> list (string * value)) (s s' : fs) (body : value) :
  (forall logId,
     deleteEntry readData writeData logId s = Some (Json200 body, s') ->
     exists l p, get body "log" = VArr l p /\
                 get body "count" = VNum (Num (Z.of_nat (length l)))) /\
  (forall now timestamp id_now,
     increment readData writeData entry_rest now timestamp id_now s
     = Some (Json200 body, s') ->
     exists data s1 c l p l' p',
       readData s = (Ok data, s1) /\
       get data "count" = VNum c /\ get data "log" = VArr l p /\
       get body "count" = VNum (nadd c (Num 1)) /\
       get body "log" = VArr l' p' /\
       length l' = Nat.min 20 (S (length l)) /\
       (c = Num (Z.of_nat (length l)) ->
        get body "count" = VNum (Num (Z.of_nat (length l')))
        <-> (length l < 20)%nat)).
Proof.
  split.
  - intros logId. apply deleteEntry_success.
  - intros now timestamp id_now Hinc.
    destruct (increment_success _ _ _ _ _ _ _ _ _ Hinc)
      as (data & s1 & c & l & p & l' & p' & Hr & Hc & Hl & Hc' & Hl' & Hlen).
    exists data, s1, c, l, p, l', p'. repeat split; try done.
    + intros E. rewrite Hc', H in E. simpl in E. injection E as E. lia.
    + intros Hlt. rewrite Hc', H. simpl. do 2 f_equal. lia.
Qed.

Lemma answered (r : option (response * fs)) (body : value) :
  fst <$> r = Some (Json200 body) -> r = Some (Json200 body, final_fs r).
Proof. destruct r as [[? ?]|]; [|done]. simpl. by intros [= ->]. Qed.

Lemma count_after_mutation_witness :
  let r := Single.deleteEntry no_faults "1700000020000"
             {[ Single.DATA_FILE := File (JsonText two_entries) ]} in
  r = Some (Json200 (body_of r), final_fs r) /\
  exists l p, get (body_of r) "log" = VArr l p /\
              get (body_of r) "count" = VNum (Num (Z.of_nat (length l))).
Proof.
  intros r.
  assert (r = Some (Json200 (body_of r), final_fs r)) as Hr
      by (apply answered; vm_compute; reflexivity).
  split; [exact Hr|].
  exact (proj1 (count_after_mutation (Single.readData no_faults)
                  (Single.writeData no_faults) Single.entry_rest
                  {[ Single.DATA_FILE := File (JsonText two_entries) ]}
                  (final_fs r) (body_of r))
           "1700000020000" Hr).
Defined.

(** C1 as stated fails: the 21st increment succeeds and leaves count 21
    and a log of 20 entries. *)
Lemma count_exceeds_log :
  let r := Single_increments twenty_one_times ∅ in
  r = Some (Json200 (body_of r), final_fs r) /\
  get (body_of r) "count" = VNum (Num 21) /\
  exists l, get (body_of r) "log" = VArr l [] /\ length l = 20%nat /\
            get (body_of r) "count" <> VNum (Num (Z.of_nat (length l))).
Proof.
  intros r. split; [apply answered; vm_compute; reflexivity|].
  split; [vm_compute; reflexivity|].
  eexists. split; [vm_compute; reflexivity|]. split; [reflexivity|].
  vm_compute. discriminate.
Qed.

(** ** The handlers of [server.js] *)

Lemma Rooms_readData_undefined (ft : faults) (s : fs) :
  Rooms.readData ft VUndefined s = (Throw TypeError, s).
Proof. reflexivity. Qed.

(** In [server.js] the handlers call [readData] without an access code,
    and [getDataFile] throws before any state is read. *)
Lemma Rooms_increment_throws (ft : faults) (username : value) (now : Z)
    (timestamp : string) (id_now : Z) (s : fs) :
  Rooms.increment ft username now timestamp id_now s = Some (Error500 TypeError, s).
Proof. reflexivity. Qed.

Lemma Rooms_deleteEntry_throws (ft : faults) (logId : string) (s : fs) :
  Rooms.deleteEntry ft logId s = Some (Error500 TypeError, s).
Proof. reflexivity. Qed.

(** ** The increment *)

(** The body of the handler of [server.js], for calls of [readData] and
    [writeData] that load and write the state, which the calls of the
    handler itself do not: the entry that it builds has the user name of the
    request, or Anonymous. *)
Lemma increment_body_username (readData : io value) (writeData : value -> io unit)
    (username data : value) (s s' : fs) (c t now id_now : Z) (timestamp : string)
    (l : list value) (p : list (string * value)) :
  get data "count" = VNum (Num c) ->
  get data "log" = VArr l p ->
  get data "lastIncrementTime" = VNum (Num t) ->
  (20000 <= now - t)%Z ->
  readData s = (Ok data, s) ->
  writeData (incremented (Rooms.entry_rest username) data now timestamp id_now c l p) s
  = (Ok tt, s') ->
  exists data' p',
    increment readData writeData (Rooms.entry_rest username) now timestamp id_now s
    = Some (Json200 data', s') /\
    get data' "count" = VNum (Num (c + 1)) /\
    get data' "lastIncrementTime" = VNum (Num now) /\
    get data' "log"
    = VArr (take 20 (VObj [("id", VStr (toString id_now));
                           ("timestamp", VStr timestamp);
                           ("count", VNum (Num (c + 1)));
                           ("username", if truthy username then username
                                        else VStr "Anonymous")] :: l)) p'.
Proof.
  intros Hc Hl Ht Hge Hload Hw.
  assert (is_object data = true) as Hobj
      by (apply (get_is_object data "count"); by rewrite Hc).
  pose proof (incremented_fields (Rooms.entry_rest username) data now timestamp
                id_now c l p Hobj) as (_ & Hc' & Ht' & [p' Hl'] & _).
  eexists _, p'. split.
  { by apply (increment_allowed _ _ _ data s Hload now timestamp id_now c t l p s'). }
  repeat split; try done. rewrite Hl'. unfold Rooms.entry_rest.
  rewrite get_set_ne by done. by rewrite get_set_eq.
Qed.

(** C2: at least 20 seconds after the last increment, the single-room
    handler adds one to the count, sets lastIncrementTime to [now], and puts
    first in the log an entry whose id is the string of the second reading
    of the clock, [id_now], and whose count is the new count; the log keeps
    its 20 first entries; the state is written to the data file, the state
    before it to the backup, and the new state is returned.  The handler of
    [server.js] does none of this: for the same request, whoever the user
    is and whatever fails or not in the file system, it answers with the
    error that its [readData] call throws, and the file system is as it
    was. *)
Theorem increment_allowed_state (ft : faults) (username data : value) (s : fs)
    (c t now id_now : Z) (timestamp : string) (l : list value)
    (p : list (string * value)) :
  s !! Single.DATA_FILE = Some (File (JsonText data)) ->
  get data "count" = VNum (Num c) ->
  get data "log" = VArr l p ->
  get data "lastIncrementTime" = VNum (Num t) ->
  (20000 <= now - t)%Z ->
  (exists data' s',
     Single.increment no_faults now timestamp id_now s = Some (Json200 data', s') /\
     get data' "count" = VNum (Num (c + 1)) /\
     get data' "lastIncrementTime" = VNum (Num now) /\
     (exists p',
        get data' "log"
        = VArr (take 20 (VObj [("id", VStr (toString id_now));
                               ("timestamp", VStr timestamp);
                               ("count", VNum (Num (c + 1)))] :: l)) p') /\
     (forall k, k <> "count" -> k <> "log" -> k <> "lastIncrementTime" ->
                get data' k = get data k) /\
     s' !! Single.DATA_FILE = Some (File (JSON_stringify data')) /\
     s' !! backupFile Single.DATA_FILE = Some (File (JsonText data))) /\
  Rooms.increment ft username now timestamp id_now s
  = Some (Error500 TypeError, s).
Proof.
  intros Hdoc Hc Hl Ht Hge. split.
  - by apply (Single_increment_allowed data s c t l p).
  - apply Rooms_increment_throws.
Qed.

Lemma increment_allowed_state_witness :
  let s : fs := {[ Single.DATA_FILE := File (JsonText fresh_document) ]} in
  (exists data' s',
     Single.increment no_faults 1700000000000 "t" 1700000000001 s
     = Some (Json200 data', s') /\
     get data' "count" = VNum (Num 1) /\
     get data' "lastIncrementTime" = VNum (Num 1700000000000)) /\
  Rooms.increment no_faults (VStr "Ed") 1700000000000 "t" 1700000000001 s
  = Some (Error500 TypeError, s).
Proof.
  intros s.
  destruct (increment_allowed_state no_faults (VStr "Ed") fresh_document s
              0 0 1700000000000 1700000000001 "t" [] []
              (lookup_singleton_eq _ _) eq_refl eq_refl eq_refl ltac:(lia))
    as [(data' & s' & Hinc & Hc & Ht & _) Hrooms].
  split; [|exact Hrooms].
  exists data', s'. split; [exact Hinc|]. split; [exact Hc | exact Ht].
Defined.

(** The two readings of the clock: the id of the new entry is the string
    of the second reading, not of [now], and the entry of the single-room
    server has no username. *)
Lemma increment_entry_id_and_username :
  let r := Single.increment no_faults 1700000000000 "t" 1700000000001
             {[ Single.DATA_FILE := File (JsonText fresh_document) ]} in
  r = Some (Json200 (body_of r), final_fs r) /\
  get (body_of r) "lastIncrementTime" = VNum (Num 1700000000000) /\
  exists entry,
    get (body_of r) "log" = VArr [entry] [] /\
    get entry "id" = VStr "1700000000001" /\
    get entry "id" <> VStr (toString 1700000000000) /\
    get entry "username" = VUndefined.
Proof.
  intros r. split; [apply answered; vm_compute; reflexivity|].
  split; [vm_compute; reflexivity|].
  eexists. split; [vm_compute; reflexivity|]. split; [reflexivity|].
  split; [vm_compute; discriminate | reflexivity].
Qed.

(** Three increments, then the deletion of the newest entry: the count is
    2 and lastIncrementTime is the id of the second entry. *)
Example delete_newest_of_three :
  let s := final_fs (Single_increments
                       [1700000000000; 1700000020000; 1700000040000]%Z ∅) in
  let r := Single.deleteEntry no_faults "1700000040000" s in
  get (body_of r) "count" = VNum (Num 2) /\
  get (body_of r) "lastIncrementTime" = VNum (Num 1700000020000).
Proof. split; vm_compute; reflexivity. Qed.

(** ** The rate limit *)

(** The seconds that the 429 answer carries are the least whole number of
    seconds that covers what remains of the 20. *)
Lemma remaining_seconds (elapsed : Z) :
  (elapsed < 20000)%Z ->
  let r := ceil_div (20000 - elapsed) 1000 in
  (1000 * (r - 1) < 20000 - elapsed <= 1000 * r)%Z /\ (1 <= r)%Z.
Proof.
  intros Hlt r. pose proof (ceil_div_spec (20000 - elapsed) 1000 eq_refl).
  fold r in H. lia.
Qed.

(** C3: within 20 seconds of the last increment, the single-room handler
    answers 429 with the seconds that remain, rounded up, and leaves the
    file system as it was; the handler of [server.js] answers with the error
    that its [readData] call throws, never with the 429. *)
Theorem increment_rate_limited_answer (ft : faults) (username data : value)
    (s : fs) (c t now id_now : Z) (timestamp : string) (l : list value)
    (p : list (string * value)) :
  s !! Single.DATA_FILE = Some (File (JsonText data)) ->
  get data "count" = VNum (Num c) ->
  get data "log" = VArr l p ->
  get data "lastIncrementTime" = VNum (Num t) ->
  (now - t < 20000)%Z ->
  let remaining := ceil_div (20000 - (now - t)) 1000 in
  Single.increment ft now timestamp id_now s
  = Some (RateLimited429 (Num remaining), s) /\
  (1000 * (remaining - 1) < 20000 - (now - t) <= 1000 * remaining)%Z /\
  Rooms.increment ft username now timestamp id_now s
  = Some (Error500 TypeError, s).
Proof.
  intros Hdoc Hc Hl Ht Hlt remaining. split; [|split].
  - by apply (Single_increment_rate_limited data s c t l p).
  - by apply remaining_seconds.
  - apply Rooms_increment_throws.
Qed.

Lemma increment_rate_limited_answer_witness :
  let s : fs := {[ Single.DATA_FILE := File (JsonText two_entries) ]} in
  Single.increment no_faults 1700000025000 "t" 1700000025000 s
  = Some (RateLimited429 (Num 15), s) /\
  Rooms.increment no_faults (VStr "Ed") 1700000025000 "t" 1700000025000 s
  = Some (Error500 TypeError, s).
Proof.
  intros s.
  destruct (increment_rate_limited_answer no_faults (VStr "Ed") two_entries s
              2 1700000020000 1700000025000 1700000025000 "t" _ []
              eq_refl eq_refl eq_refl eq_refl)
    as (Hsingle & _ & Hrooms); [lia|].
  split; [exact Hsingle | exact Hrooms].
Defined.

(** C4: the single-room handler answers 404 and leaves the file system as
    it was when no entry has the id; when one has, it removes the first
    such entry, sets the count to the length of what is left and
    lastIncrementTime to the largest id left, wherever it is in the log, or
    to 0 when nothing is left, writes the state and returns it.  The handler
    of [server.js] answers with the error that its [readData] call throws
    in both cases. *)
Theorem deleteEntry_answer (ft : faults) (data : value) (s : fs) (c t : Z)
    (l : list value) (p : list (string * value)) (logId : string) :
  s !! Single.DATA_FILE = Some (File (JsonText data)) ->
  get data "count" = VNum (Num c) ->
  get data "log" = VArr l p ->
  get data "lastIncrementTime" = VNum (Num t) ->
  (Forall (fun entry => nullish entry = false /\ get entry "id" <> VStr logId) l ->
   Single.deleteEntry ft logId s = Some (NotFound404, s)) /\
  (forall i zs,
     findIndex logId l = Ok (Some i) ->
     Forall2 numeric_id (delete i l) zs ->
     exists data' s' m,
       Single.deleteEntry no_faults logId s = Some (Json200 data', s') /\
       get data' "log" = VArr (delete i l) p /\
       get data' "count" = VNum (Num (Z.of_nat (length (delete i l)))) /\
       get data' "lastIncrementTime" = VNum (Num m) /\
       (zs = [] /\ m = 0%Z \/ m ∈ zs /\ Forall (fun z => (z <= m)%Z) zs) /\
       (forall k, k <> "count" -> k <> "log" -> k <> "lastIncrementTime" ->
                  get data' k = get data k) /\
       s' !! Single.DATA_FILE = Some (File (JSON_stringify data')) /\
       s' !! backupFile Single.DATA_FILE = Some (File (JsonText data))) /\
  Rooms.deleteEntry ft logId s = Some (Error500 TypeError, s).
Proof.
  intros Hdoc Hc Hl Ht. split; [|split].
  - by apply (Single_deleteEntry_not_found data s c t l p).
  - intros i zs. by apply (Single_deleteEntry_found data s c t l p).
  - apply Rooms_deleteEntry_throws.
Qed.

Lemma deleteEntry_answer_witness :
  let s : fs := {[ Single.DATA_FILE := File (JsonText two_entries) ]} in
  Single.deleteEntry no_faults "42" s = Some (NotFound404, s) /\
  Rooms.deleteEntry no_faults "42" s = Some (Error500 TypeError, s).
Proof.
  intros s.
  destruct (deleteEntry_answer no_faults two_entries s 2 1700000020000 _ [] "42"
              eq_refl eq_refl eq_refl eq_refl)
    as (Hsingle & _ & Hrooms).
  split; [apply Hsingle | exact Hrooms].
  repeat constructor; discriminate.
Defined.

(** ** Entries that share an id *)

(** In the single-room server the deletion removes the first entry with the
    id and no other: an entry behind it, with the same id or not, is still
    in the log, one place nearer the front. *)
Lemma deleteEntry_removes_first (logId : string) (l : list value) (i : nat) :
  findIndex logId l = Ok (Some i) ->
  length l = S (length (delete i l)) /\
  take i (delete i l) = take i l /\
  Forall (fun entry => id_is logId entry = false) (take i l) /\
  (forall j, (i <= j)%nat -> delete i l !! j = l !! S j).
Proof.
  intros Hf. destruct (findIndex_some logId l i Hf) as [(e & He & _) Hbefore].
  assert (i < length l)%nat as Hi by (by eapply lookup_lt_Some).
  repeat split; try done.
  - rewrite length_delete by eauto. lia.
  - rewrite delete_take_drop, take_app_le by (rewrite length_take; lia).
    rewrite take_take. f_equal. lia.
  - intros j Hj. by apply list_lookup_delete_ge.
Qed.

(** C10: when two entries share the id, the single-room handler removes
    the one nearest the front and no other (the second is still in the log,
    one place nearer the front), and sets the count to the length of what is
    left; the handler of [server.js] answers with the error that its
    [readData] call throws and removes nothing. *)
Theorem deleteEntry_shared_id_answer (ft : faults) (data : value) (s : fs)
    (c t : Z) (l : list value) (p : list (string * value)) (logId : string)
    (i j : nat) (second : value) (zs : list Z) :
  s !! Single.DATA_FILE = Some (File (JsonText data)) ->
  get data "count" = VNum (Num c) ->
  get data "log" = VArr l p ->
  get data "lastIncrementTime" = VNum (Num t) ->
  findIndex logId l = Ok (Some i) ->
  (i < j)%nat -> l !! j = Some second -> id_is logId second = true ->
  Forall2 numeric_id (delete i l) zs ->
  (exists data' s',
     Single.deleteEntry no_faults logId s = Some (Json200 data', s') /\
     get data' "log" = VArr (delete i l) p /\
     length l = S (length (delete i l)) /\
     take i (delete i l) = take i l /\
     Forall (fun entry => id_is logId entry = false) (take i l) /\
     delete i l !! pred j = Some second /\
     get data' "count" = VNum (Num (Z.of_nat (length (delete i l))))) /\
  Rooms.deleteEntry ft logId s = Some (Error500 TypeError, s).
Proof.
  intros Hdoc Hc Hl Ht Hfound Hij Hj Hid Hids. split; [|apply Rooms_deleteEntry_throws].
  destruct (Single_deleteEntry_found data s c t l p Hdoc Hc Hl Ht logId i zs
              Hfound Hids) as (data' & s' & m & Hdel & Hl' & Hc' & _).
  destruct (deleteEntry_removes_first logId l i Hfound)
    as (Hlen & Htake & Hbefore & Hafter).
  exists data', s'. repeat split; try done.
  rewrite Hafter by lia. by replace (S (pred j)) with j by lia.
Qed.

Lemma deleteEntry_shared_id_answer_witness :
  let s : fs := {[ Single.DATA_FILE := File (JsonText shared_id) ]} in
  let r := Single.deleteEntry no_faults "1700000020000" s in
  get (body_of r) "count" = VNum (Num 2) /\
  get (body_of r) "log"
  = VArr [VObj [("id", VStr "1700000020000"); ("timestamp", VStr "t3");
                ("count", VNum (Num 3))];
          VObj [("id", VStr "1700000000000"); ("timestamp", VStr "t1");
                ("count", VNum (Num 1))]] [] /\
  Rooms.deleteEntry no_faults "1700000020000" s = Some (Error500 TypeError, s).
Proof.
  intros s r.
  destruct (deleteEntry_shared_id_answer no_faults shared_id s 3 1700000020000
              _ [] "1700000020000" 0 1
              (VObj [("id", VStr "1700000020000"); ("timestamp", VStr "t3");
                     ("count", VNum (Num 3))])
              [1700000020000; 1700000000000]%Z
              eq_refl eq_refl eq_refl eq_refl eq_refl)
    as [(data' & s' & Hdel & Hlog & _ & _ & _ & _ & Hcount) Hrooms];
    [lia | reflexivity | reflexivity | |].
  { repeat constructor; by eexists. }
  subst r. rewrite Hdel. simpl. split; [exact Hcount|]. split; [exact Hlog | exact Hrooms].
Defined.

(** * More of the two servers *)

(** ** Strings as lists of characters *)

Lemma chars_app (a b : string) :
  list_ascii_of_string (a ++ b)
  = (list_ascii_of_string a ++ list_ascii_of_string b)%list.
Proof. induction a as [|c a IH]; simpl; [done | by rewrite IH]. Qed.

Lemma chars_inj (a b : string) :
  list_ascii_of_string a = list_ascii_of_string b -> a = b.
Proof.
  intros H. rewrite <- (string_of_list_ascii_of_string a),
    <- (string_of_list_ascii_of_string b). by rewrite H.
Qed.

(** Two strings that are equal end alike. *)
Lemma append_inj_suffix (a b x y : string) :
  String.length x = String.length y -> a ++ x = b ++ y -> a = b /\ x = y.
Proof.
  intros Hlen Heq. apply (f_equal list_ascii_of_string) in Heq.
  rewrite !chars_app in Heq.
  assert (length (list_ascii_of_string x) = length (list_ascii_of_string y)) as Hl.
  { clear Heq. revert y Hlen. induction x as [|c x IH]; intros [|d y]; simpl; try done.
    intros [= H]. f_equal. by apply IH. }
  apply app_inj_2 in Heq as [Ha Hx]; [|done].
  split; by apply chars_inj.
Qed.

Lemma append_assoc (a b c : string) : (a ++ b) ++ c = a ++ (b ++ c).
Proof.
  induction a as [|x a IH]; [done|].
  change (String x ((a ++ b) ++ c) = String x (a ++ (b ++ c))). by f_equal.
Qed.

(** ** The files of a room *)

(** The data files of two rooms are the same file exactly when the rooms
    have the same key. *)
Lemma dataFile_of_inj (c1 c2 : string) :
  Rooms.dataFile_of c1 = Rooms.dataFile_of c2 ->
  Rooms.sanitizedCode c1 = Rooms.sanitizedCode c2.
Proof.
  unfold Rooms.dataFile_of. intros H. apply append_inj_l in H.
  by apply append_inj_suffix in H as [? _].
Qed.

(** A data file is not the temporary file or the backup of any data
    file, and the temporary file of one is not the backup of another. *)
Lemma dataFile_not_temp (c1 c2 : string) :
  Rooms.dataFile_of c1 <> tempFile (Rooms.dataFile_of c2).
Proof.
  unfold Rooms.dataFile_of, tempFile. intros H.
  change ("counter-data-" ++ Rooms.sanitizedCode c1 ++ ".json")
    with ("counter-data-" ++ Rooms.sanitizedCode c1 ++ "." ++ "json") in H.
  rewrite <- !append_assoc in H.
  by apply append_inj_suffix in H as [_ ?].
Qed.

Lemma dataFile_not_backup (c1 c2 : string) :
  Rooms.dataFile_of c1 <> backupFile (Rooms.dataFile_of c2).
Proof.
  unfold Rooms.dataFile_of, backupFile. intros H.
  change ".backup" with (".b" ++ "ackup") in H.
  rewrite <- !append_assoc in H.
  by apply append_inj_suffix in H as [_ ?].
Qed.

Lemma temp_not_backup (p q : string) : tempFile p <> backupFile q.
Proof.
  unfold tempFile, backupFile. intros H.
  change ".backup" with (".ba" ++ "ckup") in H.
  rewrite <- append_assoc in H.
  by apply append_inj_suffix in H as [_ ?].
Qed.

Lemma tempFile_inj (p q : string) : tempFile p = tempFile q -> p = q.
Proof. intros H. by apply append_inj_suffix in H as [? _]. Qed.

Lemma backupFile_inj (p q : string) : backupFile p = backupFile q -> p = q.
Proof. intros H. by apply append_inj_suffix in H as [? _]. Qed.

Ltac lookups_away :=
  repeat first
    [ rewrite lookup_insert_eq
    | rewrite lookup_delete_eq
    | rewrite lookup_insert_ne by first [paths | done | congruence]
    | rewrite lookup_delete_ne by first [paths | done | congruence] ].

(** [writeData] changes no file but the data file, its temporary file and
    its backup, whatever happens. *)
Lemma writeData_at_frame (ft : faults) (dataFile : string) (data : value)
    (s s' : fs) (r : res unit) (p : string) :
  writeData_at ft dataFile data s = (r, s') ->
  p <> dataFile -> p <> tempFile dataFile -> p <> backupFile dataFile ->
  s' !! p = s !! p.
Proof.
  intros Hw Hd Ht Hb. revert Hw. unfold_io. rewrite not_object_test.
  destruct (is_object data) eqn:Hobj; simpl;
    repeat first [progress lookups | progress simpl | split_case];
    intros [= <- <-]; by lookups_away.
Qed.

(** X1: a write for one room changes no file of a room with another key:
    neither its data file, nor its backup, nor its temporary file, whether
    the write succeeds or fails. *)
Theorem writeData_other_rooms (ft : faults) (c1 c2 : string) (data : value)
    (s s' : fs) (r : res unit) :
  Rooms.sanitizedCode c1 <> Rooms.sanitizedCode c2 ->
  Rooms.writeData ft (VStr c1) data s = (r, s') ->
  s' !! Rooms.dataFile_of c2 = s !! Rooms.dataFile_of c2 /\
  s' !! backupFile (Rooms.dataFile_of c2) = s !! backupFile (Rooms.dataFile_of c2) /\
  s' !! tempFile (Rooms.dataFile_of c2) = s !! tempFile (Rooms.dataFile_of c2).
Proof.
  intros Hkey Hw. rewrite Rooms_writeData_at in Hw.
  assert (Rooms.dataFile_of c2 <> Rooms.dataFile_of c1) as Hdf
      by (intros H%dataFile_of_inj; congruence).
  repeat split; apply (writeData_at_frame _ _ _ _ _ _ _ Hw).
  - done.
  - apply dataFile_not_temp.
  - apply dataFile_not_backup.
  - apply not_eq_sym, dataFile_not_backup.
  - apply not_eq_sym, temp_not_backup.
  - by intros H%backupFile_inj.
  - apply not_eq_sym, dataFile_not_temp.
  - by intros H%tempFile_inj.
  - apply temp_not_backup.
Qed.

Lemma writeData_other_rooms_witness :
  let s : fs := {[ Rooms.dataFile_of "kitchen" := File (JsonText fresh_document) ]} in
  snd (Rooms.writeData no_faults (VStr "den") two_entries s)
    !! Rooms.dataFile_of "kitchen"
  = Some (File (JsonText fresh_document)).
Proof.
  intros s.
  destruct (writeData_other_rooms no_faults "den" "kitchen" two_entries s
              (snd (Rooms.writeData no_faults (VStr "den") two_entries s))
              (fst (Rooms.writeData no_faults (VStr "den") two_entries s)))
    as (Hdf & _ & _); [discriminate | apply surjective_pairing |].
  rewrite Hdf. reflexivity.
Defined.



(** X3: the backup is one write behind.  After a write that succeeded over
    a document [old], a data file that can no longer be read or parsed makes
    [readData] return [old], the state before that write, and not the state
    that was written. *)
Theorem recovery_is_one_write_behind (ft ft' : faults) (code : string)
    (old data : value) (s s1 : fs) (broken : file) :
  s !! Rooms.dataFile_of code = Some (File (JsonText old)) ->
  truthy old = true ->
  Rooms.writeData ft (VStr code) data s = (Ok tt, s1) ->
  broken = Unreadable \/ broken = File Garbled ->
  Rooms.readData ft' (VStr code) (<[Rooms.dataFile_of code := broken]> s1)
  = (Ok old, <[Rooms.dataFile_of code := broken]> s1).
Proof.
  intros Hold Htruthy Hw Hbroken. rewrite Rooms_writeData_at in Hw.
  apply writeData_at_outcome in Hw as (_ & _ & Hok).
  destruct (Hok eq_refl) as (_ & _ & _ & _ & _ & _ & Hb & _).
  rewrite Hold in Hb.
  rewrite Rooms_readData_broken
    by (rewrite lookup_insert_eq; destruct Hbroken as [->| ->]; auto).
  unfold bind. rewrite (Rooms_restore_backup code _ old).
  - by rewrite Htruthy.
  - by rewrite lookup_insert_ne by (apply not_eq_sym, backupFile_ne).
Qed.

Lemma recovery_is_one_write_behind_witness :
  let s : fs := {[ Rooms.dataFile_of "den" := File (JsonText fresh_document) ]} in
  let s1 := snd (Rooms.writeData no_faults (VStr "den") two_entries s) in
  fst (Rooms.readData no_faults (VStr "den")
         (<[Rooms.dataFile_of "den" := File Garbled]> s1))
  = Ok fresh_document.
Proof.
  intros s s1.
  rewrite (recovery_is_one_write_behind no_faults no_faults "den" fresh_document
             two_entries s s1 (File Garbled));
    [reflexivity | reflexivity | reflexivity | | by right].
  apply injective_projections; reflexivity.
Defined.

(** ** Loading again, and loading what is not a state *)

Lemma Rooms_initializeData_fresh (code : string) (s : fs) :
  s !! Rooms.dataFile_of code <> Some Unreadable ->
  exists s1,
    Rooms.initializeData no_faults (VStr code) s
    = (Ok (Rooms.initialData (VStr code)), s1) /\
    s1 !! Rooms.dataFile_of code
    = Some (File (JsonText (Rooms.initialData (VStr code)))) /\
    s1 !! backupFile (Rooms.dataFile_of code)
    = match s !! Rooms.dataFile_of code with
      | Some f => Some f
      | None => s !! backupFile (Rooms.dataFile_of code)
      end.
Proof.
  intros Hr.
  destruct (writeData_at_ok (Rooms.dataFile_of code)
              (Rooms.initialData (VStr code)) s) as [s1 Hw]; try done.
  exists s1. split.
  - unfold Rooms.initializeData, bind. by rewrite Rooms_writeData_at, Hw.
  - apply writeData_at_outcome in Hw as (_ & _ & Hok).
    destruct (Hok eq_refl) as (_ & _ & _ & _ & Hd & _ & Hb & _).
    by rewrite Hd, Hb.
Qed.

Lemma Rooms_readData_absent (code : string) (s : fs) :
  s !! Rooms.dataFile_of code = None ->
  Rooms.readData no_faults (VStr code) s
  = Rooms.initializeData no_faults (VStr code) s.
Proof.
  intros Hnone.
  destruct (Rooms_initializeData_fresh code s) as (s1 & Hi & _);
    [by rewrite Hnone|].
  unfold Rooms.readData, Rooms.getDataFile, bind, lift, catch, existsSync.
  by rewrite Hnone, Hi.
Qed.

Lemma Rooms_readData_not_object (code : string) (parsed : value) (s : fs) :
  s !! Rooms.dataFile_of code = Some (File (JsonText parsed)) ->
  is_object parsed = false ->
  Rooms.readData no_faults (VStr code) s
  = Rooms.initializeData no_faults (VStr code) s.
Proof.
  intros Hdf Hobj.
  destruct (Rooms_initializeData_fresh code s) as (s1 & Hi & _);
    [by rewrite Hdf|].
  unfold Rooms.readData, Rooms.getDataFile, bind, lift, catch, existsSync,
    readFileSync, JSON_parse.
  rewrite Hdf. simpl. rewrite not_object_test, Hobj. simpl. by rewrite Hi.
Qed.

Lemma Rooms_readData_fresh_document (ft : faults) (code : string) (s : fs) :
  s !! Rooms.dataFile_of code
  = Some (File (JsonText (Rooms.initialData (VStr code)))) ->
  Rooms.readData ft (VStr code) s = (Ok (Rooms.initialData (VStr code)), s).
Proof.
  intros Hdf.
  by rewrite (Rooms_readData_document ft code s (Rooms.initialData (VStr code))).
Qed.

(** X4: when nothing fails, a state that [readData] has returned is
    returned again by the next [readData], which writes nothing: the first
    access of a room creates its document, and the accesses that follow
    read it. *)
Theorem readData_again (code : string) (data : value) (s s1 : fs) :
  Rooms.readData no_faults (VStr code) s = (Ok data, s1) ->
  Rooms.readData no_faults (VStr code) s1 = (Ok data, s1).
Proof.
  intros Hr.
  assert (forall s', Rooms.initializeData no_faults (VStr code) s = (Ok data, s') ->
            Rooms.readData no_faults (VStr code) s' = (Ok data, s')) as Hinit.
  { intros s' Hi.
    destruct (s !! Rooms.dataFile_of code) as [[t|]|] eqn:Hdf.
    - destruct (Rooms_initializeData_fresh code s) as (s2 & Hi2 & Hdoc & _);
        [by rewrite Hdf|].
      rewrite Hi in Hi2. injection Hi2 as -> ->.
      by apply Rooms_readData_fresh_document.
    - unfold Rooms.initializeData, bind in Hi. rewrite Rooms_writeData_at in Hi.
      destruct (writeData_at _ _ _ s) as [[[]|e] s2] eqn:Hw; [|done].
      apply writeData_at_outcome in Hw as (_ & _ & Hok).
      destruct (Hok eq_refl) as (_ & _ & _ & [Hnone|[_ [t Ht]]] & _); congruence.
    - destruct (Rooms_initializeData_fresh code s) as (s2 & Hi2 & Hdoc & _);
        [by rewrite Hdf|].
      rewrite Hi in Hi2. injection Hi2 as -> ->.
      by apply Rooms_readData_fresh_document. }
  destruct (s !! Rooms.dataFile_of code) as [[[parsed|]|]|] eqn:Hdf.
  - destruct (is_object parsed) eqn:Hobj.
    + rewrite (Rooms_readData_document _ _ _ parsed Hdf Hobj) in Hr.
      injection Hr as <- <-. by apply Rooms_readData_document.
    + rewrite (Rooms_readData_not_object _ parsed _ Hdf Hobj) in Hr. by apply Hinit.
  - pose proof Hr as Hr'. rewrite Rooms_readData_broken in Hr' by auto.
    unfold bind in Hr'.
    destruct (Rooms.tryRestoreFromBackup (VStr code) s) as [[v|e] s2] eqn:Hb;
      [|done].
    assert (s2 = s) as ->.
    { revert Hb. unfold Rooms.tryRestoreFromBackup, Rooms.getDataFile. unfold_io.
      destruct (s !! backupFile _) as [[[?|]|]|]; simpl; by intros [= _ <-]. }
    destruct (truthy v); [|by apply Hinit].
    injection Hr' as <- <-. exact Hr.
  - pose proof Hr as Hr'. rewrite Rooms_readData_broken in Hr' by auto.
    unfold bind in Hr'.
    destruct (Rooms.tryRestoreFromBackup (VStr code) s) as [[v|e] s2] eqn:Hb;
      [|done].
    assert (s2 = s) as ->.
    { revert Hb. unfold Rooms.tryRestoreFromBackup, Rooms.getDataFile. unfold_io.
      destruct (s !! backupFile _) as [[[?|]|]|]; simpl; by intros [= _ <-]. }
    destruct (truthy v); [|by apply Hinit].
    injection Hr' as <- <-. exact Hr.
  - rewrite (Rooms_readData_absent _ _ Hdf) in Hr. by apply Hinit.
Qed.

Lemma readData_again_witness :
  let s1 := snd (Rooms.readData no_faults (VStr "den") ∅) in
  Rooms.readData no_faults (VStr "den") s1
  = (Ok (Rooms.initialData (VStr "den")), s1).
Proof.
  intros s1.
  apply (readData_again "den" (Rooms.initialData (VStr "den")) ∅ s1).
  apply injective_projections; reflexivity.
Defined.

(** X5: when the data file is missing, [readData] starts the room afresh
    and does not look at the backup, which is left as it is; and when the
    data file parses to something that is not an object ([null], a number,
    a string), [readData] starts afresh as well, and what the data file
    held replaces the backup, whatever state the backup held. *)
Theorem readData_starts_afresh (code : string) (s : fs) :
  (s !! Rooms.dataFile_of code = None ->
   exists s1,
     Rooms.readData no_faults (VStr code) s
     = (Ok (Rooms.initialData (VStr code)), s1) /\
     s1 !! Rooms.dataFile_of code
     = Some (File (JsonText (Rooms.initialData (VStr code)))) /\
     s1 !! backupFile (Rooms.dataFile_of code)
     = s !! backupFile (Rooms.dataFile_of code)) /\
  (forall parsed,
     s !! Rooms.dataFile_of code = Some (File (JsonText parsed)) ->
     is_object parsed = false ->
     exists s1,
       Rooms.readData no_faults (VStr code) s
       = (Ok (Rooms.initialData (VStr code)), s1) /\
       s1 !! Rooms.dataFile_of code
       = Some (File (JsonText (Rooms.initialData (VStr code)))) /\
       s1 !! backupFile (Rooms.dataFile_of code) = Some (File (JsonText parsed))).
Proof.
  split.
  - intros Hnone. rewrite (Rooms_readData_absent _ _ Hnone).
    destruct (Rooms_initializeData_fresh code s) as (s1 & Hi & Hdoc & Hb);
      [by rewrite Hnone|].
    rewrite Hnone in Hb. eauto.
  - intros parsed Hdf Hobj. rewrite (Rooms_readData_not_object _ _ _ Hdf Hobj).
    destruct (Rooms_initializeData_fresh code s) as (s1 & Hi & Hdoc & Hb);
      [by rewrite Hdf|].
    rewrite Hdf in Hb. eauto.
Qed.

Lemma readData_starts_afresh_witness :
  let s : fs := {[ Rooms.dataFile_of "den" := File (JsonText VNull);
                   backupFile (Rooms.dataFile_of "den") := File (JsonText two_entries) ]} in
  exists s1,
    Rooms.readData no_faults (VStr "den") s
    = (Ok (Rooms.initialData (VStr "den")), s1) /\
    s1 !! backupFile (Rooms.dataFile_of "den") = Some (File (JsonText VNull)).
Proof.
  intros s.
  destruct (readData_starts_afresh "den" s) as [_ Hnot].
  destruct (Hnot VNull) as (s1 & Hr & _ & Hb); [reflexivity | reflexivity |].
  exists s1. split; [exact Hr | exact Hb].
Defined.

(** ** The button and the increment *)

(** X6: the button state and the increment agree.  On the same state and
    at the same time, the button is reported disabled exactly when the
    increment is refused, with the same number of seconds to wait, and it is
    reported enabled, with nothing to wait, exactly when the increment is
    made. *)
Theorem button_agrees_with_increment (ft : faults) (data : value) (s : fs)
    (c t now id_now : Z) (timestamp : string) (l : list value)
    (p : list (string * value)) :
  s !! Single.DATA_FILE = Some (File (JsonText data)) ->
  get data "count" = VNum (Num c) ->
  get data "log" = VArr l p ->
  get data "lastIncrementTime" = VNum (Num t) ->
  let enabled := (20000 <=? now - t)%Z in
  let remaining := if enabled then 0%Z else ceil_div (20000 - (now - t)) 1000 in
  SingleApi.buttonState ft now s
  = Some (Reply 200 (VObj [("isEnabled", VBool enabled);
                           ("remainingTime", VNum (Num remaining));
                           ("lastIncrementTime", VNum (Num t))]), s) /\
  (enabled = false ->
   Single.increment ft now timestamp id_now s
   = Some (RateLimited429 (Num remaining), s)) /\
  (enabled = true ->
   exists data' s',
     Single.increment no_faults now timestamp id_now s = Some (Json200 data', s')).
Proof.
  intros Hdoc Hc Hl Ht enabled remaining. split; [|split].
  - unfold SingleApi.buttonState, buttonState.
    rewrite (Single_readData_state data s c t l p Hdoc Hc Hl Ht), Ht. simpl.
    fold enabled. subst remaining. by destruct enabled.
  - intros He. subst remaining. rewrite He.
    apply (Single_increment_rate_limited data s c t l p); try done.
    subst enabled. by apply Z.leb_gt in He.
  - intros He. subst enabled. apply Z.leb_le in He.
    destruct (Single_increment_allowed data s c t l p Hdoc Hc Hl Ht now timestamp
                id_now He) as (data' & s' & Hinc & _).
    eauto.
Qed.

Lemma button_agrees_with_increment_witness :
  let s : fs := {[ Single.DATA_FILE := File (JsonText two_entries) ]} in
  SingleApi.buttonState no_faults 1700000025000 s
  = Some (Reply 200 (VObj [("isEnabled", VBool false);
                           ("remainingTime", VNum (Num 15));
                           ("lastIncrementTime", VNum (Num 1700000020000))]), s) /\
  Single.increment no_faults 1700000025000 "t" 1700000025000 s
  = Some (RateLimited429 (Num 15), s).
Proof.
  intros s.
  destruct (button_agrees_with_increment no_faults two_entries s 2 1700000020000
              1700000025000 1700000025000 "t" _ [] eq_refl eq_refl eq_refl eq_refl)
    as (Hbutton & Hrefused & _).
  split; [exact Hbutton | exact (Hrefused eq_refl)].
Defined.

(** ** States that are written as they are *)

Lemma json_clean_fields (f : list (string * value)) :
  json_clean (VObj f) = true <-> Forall (fun kv => json_clean kv.2 = true) f.
Proof.
  induction f as [|[k x] f IH]; simpl; [by split; [constructor|]|].
  rewrite andb_true_iff, Forall_cons. simpl in IH. by rewrite IH.
Qed.

Lemma json_clean_assoc_set (k : string) (x : value) (f : list (string * value)) :
  json_clean (VObj f) = true -> json_clean x = true ->
  json_clean (VObj (assoc_set k x f)) = true.
Proof.
  rewrite !json_clean_fields. intros Hf Hx.
  induction Hf as [|[k' v] f Hv Hf IH]; simpl.
  - by repeat constructor.
  - destruct (String.eqb k k'); constructor; done.
Qed.

Lemma json_clean_assoc_get (k : string) (f : list (string * value)) :
  json_clean (VObj f) = true -> assoc_get k f <> VUndefined ->
  json_clean (assoc_get k f) = true.
Proof.
  rewrite json_clean_fields. intros Hf.
  induction Hf as [|[k' v] f Hv Hf IH]; simpl; [done|].
  destruct (String.eqb k k'); auto.
Qed.

Lemma json_clean_array (l : list value) (p : list (string * value)) :
  json_clean (VArr l p) = true <->
  Forall (fun x => json_clean x = true) l /\ p = [].
Proof.
  simpl. rewrite andb_true_iff, forallb_forall, Forall_forall.
  split; intros [Hl Hp]; (split; [|by destruct p]).
  - intros x Hx. apply Hl. by apply list_elem_of_In.
  - intros x Hx. apply Hl. by apply list_elem_of_In.
Qed.

Lemma json_clean_object (data : value) (k : string) :
  json_clean data = true -> get data k <> VUndefined -> exists f, data = VObj f.
Proof.
  destruct data as [| | | | |e p|f]; try done; [|by eexists].
  intros [_ ->]%json_clean_array. done.
Qed.

Lemma json_clean_set (data x : value) (k : string) :
  json_clean data = true -> is_object data = true -> get data k <> VUndefined ->
  json_clean x = true -> json_clean (set data k x) = true.
Proof.
  intros Hclean _ Hk Hx.
  destruct (json_clean_object data k Hclean Hk) as [f ->].
  by apply json_clean_assoc_set.
Qed.

(** One increment of a state that is written as it is. *)
Lemma Single_increment_step (data : value) (s : fs) (c t now id_now : Z)
    (timestamp : string) (l : list value) :
  s !! Single.DATA_FILE = Some (File (JsonText data)) ->
  json_clean data = true ->
  get data "count" = VNum (Num c) ->
  get data "log" = VArr l [] ->
  get data "lastIncrementTime" = VNum (Num t) ->
  (20000 <= now - t)%Z ->
  exists data' s',
    Single.increment no_faults now timestamp id_now s = Some (Json200 data', s') /\
    s' !! Single.DATA_FILE = Some (File (JsonText data')) /\
    s' !! backupFile Single.DATA_FILE = Some (File (JsonText data)) /\
    json_clean data' = true /\
    get data' "count" = VNum (Num (c + 1)) /\
    get data' "log"
    = VArr (take 20 (VObj [("id", VStr (toString id_now));
                           ("timestamp", VStr timestamp);
                           ("count", VNum (Num (c + 1)))] :: l)) [] /\
    get data' "lastIncrementTime" = VNum (Num now) /\
    (forall k, k <> "count" -> k <> "log" -> k <> "lastIncrementTime" ->
               get data' k = get data k).
Proof.
  intros Hdoc Hclean Hc Hl Ht Hge.
  assert (Hobj : is_object data = true) by (by apply (Single_state_is_object data c)).
  pose proof (incremented_fields Single.entry_rest data now timestamp id_now c l []
                Hobj) as (Hobj' & Hc' & Ht' & _ & Hk').
  set (data' := incremented Single.entry_rest data now timestamp id_now c l []) in *.
  assert (Hentry : Single.entry_rest
                     (set (set data "count" (VNum (Num (c + 1))))
                          "lastIncrementTime" (VNum (Num now)))
                   = [("count", VNum (Num (c + 1)))]).
  { unfold Single.entry_rest. rewrite get_set_ne by done.
    by rewrite get_set_eq. }
  assert (Hl' : get data' "log"
                = VArr (take 20 (VObj [("id", VStr (toString id_now));
                                       ("timestamp", VStr timestamp);
                                       ("count", VNum (Num (c + 1)))] :: l)) []).
  { subst data'. unfold incremented. cbv zeta. rewrite Hentry.
    rewrite get_set_eq by (by rewrite !is_object_set).
    by destruct (20 <? _)%nat. }
  assert (Hclean' : json_clean data' = true).
  { destruct (json_clean_object data "count" Hclean) as [f ->]; [by rewrite Hc|].
    assert (Hlog : json_clean (VArr l []) = true).
    { rewrite <- Hl. apply json_clean_assoc_get; [done|].
      unfold get in Hl. by rewrite Hl. }
    apply json_clean_array in Hlog as [Hlog _].
    subst data'. unfold incremented. cbv zeta. rewrite Hentry. unfold set.
    apply json_clean_assoc_set; [by repeat apply json_clean_assoc_set|].
    apply json_clean_array. split; [|by destruct (20 <? _)%nat].
    apply Forall_take. by constructor. }
  destruct (Single_writeData_ok data s Hdoc data' _ _ Hobj' Hl')
    as (s' & Hw & Hfile & _ & Hbackup).
  exists data', s'. split.
  { unfold Single.increment.
    by apply (increment_allowed _ _ _ data s
                (Single_readData_state data s c t l [] Hdoc Hc Hl Ht no_faults)
                now timestamp id_now c t l [] s'). }
  unfold JSON_stringify in Hfile. rewrite to_json_clean in Hfile by done.
  repeat split; done.
Qed.

(** ** Runs of increments *)

Lemma after_increments_count (requests : list (Z * string * Z)) :
  forall (c : Z) (l : list value) (t : Z),
    (after_increments c l t requests).1.1 = (c + Z.of_nat (length requests))%Z.
Proof.
  induction requests as [|[[now timestamp] id_now] rest IH]; intros c l t.
  - simpl. lia.
  - change (after_increments c l t ((now, timestamp, id_now) :: rest))
      with (after_increments (c + 1)
              (take 20 (VObj [("id", VStr (toString id_now));
                              ("timestamp", VStr timestamp);
                              ("count", VNum (Num (c + 1)))] :: l)) now rest).
    rewrite IH, length_cons. lia.
Qed.

Lemma after_increments_length (requests : list (Z * string * Z)) :
  forall (c : Z) (l : list value) (t : Z),
    requests <> [] ->
    length (after_increments c l t requests).1.2
    = Nat.min 20 (length l + length requests).
Proof.
  induction requests as [|[[now timestamp] id_now] rest IH]; intros c l t Hne;
    [done|].
  change (after_increments c l t ((now, timestamp, id_now) :: rest))
    with (after_increments (c + 1)
            (take 20 (VObj [("id", VStr (toString id_now));
                            ("timestamp", VStr timestamp);
                            ("count", VNum (Num (c + 1)))] :: l)) now rest).
  destruct rest as [|r rest].
  - cbn [after_increments fst snd]. rewrite length_take, !length_cons.
    cbn [length]. lia.
  - rewrite IH by done. rewrite length_take, !length_cons. lia.
Qed.

(** X7: increments that come 20 seconds or more after one another.
    Starting from a stored state of the single-room server that is written
    as it is, each of them is answered with 200; afterwards the stored
    count has grown by their number, the time of the last increment is the
    time of the last request, and the log holds the new entries, the newest
    first, before the old ones, cut to 20 at every step, so that its length
    is the smaller of 20 and the old length plus their number. *)
Theorem increments_spaced (requests : list (Z * string * Z)) :
  forall (data : value) (s : fs) (c t : Z) (l : list value),
    s !! Single.DATA_FILE = Some (File (JsonText data)) ->
    json_clean data = true ->
    get data "count" = VNum (Num c) ->
    get data "log" = VArr l [] ->
    get data "lastIncrementTime" = VNum (Num t) ->
    spaced t requests ->
    let after := after_increments c l t requests in
    exists rs s' data',
      SingleApi.increments no_faults requests s = Some (rs, s') /\
      length rs = length requests /\
      Forall is_200 rs /\
      s' !! Single.DATA_FILE = Some (File (JsonText data')) /\
      json_clean data' = true /\
      get data' "count" = VNum (Num (c + Z.of_nat (length requests))) /\
      get data' "log" = VArr after.1.2 [] /\
      get data' "lastIncrementTime" = VNum (Num after.2) /\
      (requests <> [] ->
       length after.1.2 = Nat.min 20 (length l + length requests)).
Proof.
  induction requests as [|[[now timestamp] id_now] rest IH];
    intros data s c t l Hdoc Hclean Hc Hl Ht Hspaced after.
  - exists [], s, data. simpl. rewrite Z.add_0_r. by repeat split.
  - destruct Hspaced as [Hge Hspaced].
    destruct (Single_increment_step data s c t now id_now timestamp l
                Hdoc Hclean Hc Hl Ht Hge)
      as (data1 & s1 & Hinc & Hdoc1 & _ & Hclean1 & Hc1 & Hl1 & Ht1 & _).
    destruct (IH data1 s1 _ _ _ Hdoc1 Hclean1 Hc1 Hl1 Ht1 Hspaced)
      as (rs & s' & data' & Hrun & Hlen & Hall & Hdoc' & Hclean' & Hc' & Hl' & Ht'
          & _).
    exists (Json200 data1 :: rs), s', data'.
    split; [|repeat split; try done].
    + change (SingleApi.increments no_faults ((now, timestamp, id_now) :: rest) s)
        with (match Single.increment no_faults now timestamp id_now s with
              | Some (r, s1) =>
                  match SingleApi.increments no_faults rest s1 with
                  | Some (rs, s2) => Some (r :: rs, s2)
                  | None => None
                  end
              | None => None
              end).
      by rewrite Hinc, Hrun.
    + by rewrite !length_cons, Hlen.
    + by constructor.
    + rewrite Hc', length_cons. do 2 f_equal. lia.
    + intros _. by apply after_increments_length.
Qed.

Lemma increments_spaced_witness :
  exists rs s' data' l',
    SingleApi.increments no_faults
      [(1700000040000, "a", 1700000040000); (1700000060000, "b", 1700000060000)]%Z
      {[ Single.DATA_FILE := File (JsonText two_entries) ]} = Some (rs, s') /\
    length rs = 2%nat /\
    get data' "count" = VNum (Num 4) /\
    get data' "log" = VArr l' [] /\
    length l' = 4%nat.
Proof.
  destruct (increments_spaced
              [(1700000040000, "a", 1700000040000); (1700000060000, "b", 1700000060000)]%Z
              two_entries {[ Single.DATA_FILE := File (JsonText two_entries) ]}
              2 1700000020000 _ (lookup_singleton_eq _ _) eq_refl eq_refl eq_refl eq_refl
              ltac:(simpl; lia))
    as (rs & s' & data' & Hrun & Hlen & _ & _ & _ & Hc & Hl & _ & Hlength).
  eexists rs, s', data', _. repeat split; [done|done|done|exact Hl|].
  by rewrite (Hlength ltac:(done)).
Defined.

(** ** An increment taken back *)

(** X8: deleting the entry that an increment has just made.  The log is
    again the old one, or its first 19 entries when it had 20 or more.  The
    count and the time of the last increment are not the old ones: the
    count is the length of that log, and the time is the largest id that
    is left in it, or 0 when it is empty. *)
Theorem increment_then_delete (data : value) (s : fs) (c t now id_now : Z)
    (timestamp : string) (l : list value) (zs : list Z) :
  s !! Single.DATA_FILE = Some (File (JsonText data)) ->
  json_clean data = true ->
  get data "count" = VNum (Num c) ->
  get data "log" = VArr l [] ->
  get data "lastIncrementTime" = VNum (Num t) ->
  (20000 <= now - t)%Z ->
  Forall2 numeric_id (take 19 l) zs ->
  exists data1 s1 data2 s2 m,
    Single.increment no_faults now timestamp id_now s = Some (Json200 data1, s1) /\
    Single.deleteEntry no_faults (toString id_now) s1 = Some (Json200 data2, s2) /\
    get data2 "log" = VArr (take 19 l) [] /\
    get data2 "count" = VNum (Num (Z.of_nat (Nat.min 19 (length l)))) /\
    get data2 "lastIncrementTime" = VNum (Num m) /\
    (zs = [] /\ m = 0%Z \/ m ∈ zs /\ Forall (fun z => (z <= m)%Z) zs) /\
    (forall k, k <> "count" -> k <> "log" -> k <> "lastIncrementTime" ->
               get data2 k = get data k) /\
    s2 !! Single.DATA_FILE = Some (File (JSON_stringify data2)) /\
    s2 !! backupFile Single.DATA_FILE = Some (File (JsonText data1)).
Proof.
  intros Hdoc Hclean Hc Hl Ht Hge Hids.
  destruct (Single_increment_step data s c t now id_now timestamp l
              Hdoc Hclean Hc Hl Ht Hge)
    as (data1 & s1 & Hinc & Hdoc1 & _ & _ & Hc1 & Hl1 & Ht1 & Hk1).
  set (entry := VObj [("id", VStr (toString id_now)); ("timestamp", VStr timestamp);
                      ("count", VNum (Num (c + 1)))]) in *.
  change (take 20 (entry :: l)) with (entry :: take 19 l) in Hl1.
  assert (Hfound : findIndex (toString id_now) (entry :: take 19 l) = Ok (Some 0%nat)).
  { simpl. unfold id_is. simpl. by rewrite String.eqb_refl. }
  destruct (Single_deleteEntry_found data1 s1 (c + 1) now (entry :: take 19 l) []
              Hdoc1 Hc1 Hl1 Ht1 (toString id_now) 0 zs Hfound Hids)
    as (data2 & s2 & m & Hdel & Hl2 & Hc2 & Ht2 & Hm & Hk2 & Hdoc2 & Hb2).
  exists data1, s1, data2, s2, m.
  change (delete 0%nat (entry :: take 19 l)) with (take 19 l) in *.
  rewrite length_take in Hc2.
  repeat split; try done.
  intros k ? ? ?. by rewrite Hk2, Hk1.
Qed.

Lemma increment_then_delete_witness :
  exists data1 s1 data2 s2,
    Single.increment no_faults 1700000040000 "t3" 1700000040000
      {[ Single.DATA_FILE := File (JsonText two_entries) ]}
    = Some (Json200 data1, s1) /\
    Single.deleteEntry no_faults "1700000040000" s1 = Some (Json200 data2, s2) /\
    get data2 "log" = get two_entries "log" /\
    get data2 "count" = VNum (Num 2).
Proof.
  destruct (increment_then_delete two_entries
              {[ Single.DATA_FILE := File (JsonText two_entries) ]}
              2 1700000020000 1700000040000 1700000040000 "t3" _
              [1700000020000; 1700000000000]%Z
              (lookup_singleton_eq _ _) eq_refl eq_refl eq_refl eq_refl
              ltac:(lia)
              ltac:(repeat constructor; eexists; split; reflexivity))
    as (data1 & s1 & data2 & s2 & m & Hinc & Hdel & Hl & Hc & _).
  exists data1, s1, data2, s2. repeat split; done.
Defined.

(** ** Import and export on the single-room server *)




Lemma coerce_imported_fields (body : value) :
  is_object body = true ->
  is_object (coerce_imported body) = true /\
  is_number (get (coerce_imported body) "count") = true /\
  isArray (get (coerce_imported body) "log") = true /\
  is_number (get (coerce_imported body) "lastIncrementTime") = true /\
  (forall k, k <> "count" -> k <> "log" -> k <> "lastIncrementTime" ->
             get (coerce_imported body) k = get body k).
Proof.
  intros Hobj. unfold coerce_imported. cbv zeta. repeat split.
  - by rewrite !is_object_ensure.
  - rewrite !get_ensure_ne, get_ensure_eq by done.
    by destruct (is_number (get body "count")) eqn:E.
  - rewrite get_ensure_ne, get_ensure_eq by (done || by rewrite is_object_ensure).
    rewrite get_ensure_ne by done.
    by destruct (isArray (get body "log")) eqn:E.
  - rewrite get_ensure_eq by (by rewrite !is_object_ensure).
    rewrite !get_ensure_ne by done.
    by destruct (is_number (get body "lastIncrementTime")) eqn:E.
  - intros k ? ? ?. by rewrite !get_ensure_ne.
Qed.





(** ** The routes of [server.js] that call [readData()] and [writeData(data)] *)

Lemma getDataFile_object (v : value) :
  is_object v = true -> Rooms.getDataFile v = Throw TypeError.
Proof.
  intros Hobj.
  assert (Htype : jstype_eqb (typeof v) TObject = true).
  { unfold is_object in Hobj. by apply andb_true_iff in Hobj as [_ ?]. }
  by destruct v.
Qed.

Lemma Rooms_writeData_swapped (ft : faults) (data : value) (s : fs) :
  is_object data = true ->
  Rooms.writeData ft data VUndefined s = (Throw TypeError, s).
Proof.
  intros Hobj. unfold Rooms.writeData, bind, lift.
  by rewrite getDataFile_object.
Qed.

(** X10: export and import on the multi-room server.  The export calls
    [readData()] and the import [writeData(importedData)]; the access code
    is then not a string, the path of the data file cannot be made, and the
    handlers catch the error: the export always answers 500, the import 500
    for every body that is an object or an array and 400 for any other, and
    neither reads or changes a file. *)
Theorem Rooms_export_import_fail (ft : faults) (body : value) (s : fs) :
  RoomsApi.exportData ft s
  = (Reply 500 (VObj [("error", VStr "Failed to export data")]), s) /\
  RoomsApi.importData ft body s
  = (if is_object body
     then Reply 500 (VObj [("error", VStr "Failed to import data")])
     else Reply 400 (VObj [("error", VStr "Invalid data format")]), s).
Proof.
  split; [reflexivity|].
  unfold RoomsApi.importData, importData. rewrite not_object_test.
  destruct (is_object body) eqn:Hobj; [|done]. simpl negb. cbv iota zeta.
  rewrite Rooms_writeData_swapped; [done|].
  by apply coerce_imported_fields.
Qed.

(** X11: [/api/subscribe] on the multi-room server never answers 201 and
    never writes the subscription: whatever [readData] returns, the handler
    ends in an error that it does not catch, at the latest in
    [writeData(data)], which takes the state for the access code.  With
    the access code that the requests to [/api/] carry, which is
    [undefined], the error is a [TypeError] and no file is touched. *)
Theorem Rooms_subscribe_uncaught (ft : faults) (accessCode subscription : value)
    (s : fs) :
  (exists e s', RoomsApi.subscribe ft accessCode subscription s = (Uncaught e, s')) /\
  RoomsApi.subscribe ft VUndefined subscription s = (Uncaught TypeError, s).
Proof.
  split; [|reflexivity].
  unfold RoomsApi.subscribe, subscribe.
  destruct (Rooms.readData ft accessCode s) as [[data|e] s1];
    [|by exists e, s1].
  destruct (get data "pushSubscriptions") as [| | | | |subs p|] eqn:Hsubs;
    try (by exists TypeError, s1).
  assert (Hobj : is_object data = true).
  { apply (get_is_object data "pushSubscriptions"). by rewrite Hsubs. }
  destruct (match subs with
            | [] => Ok []
            | _ => if nullish subscription then Throw TypeError
                   else without_endpoint (get subscription "endpoint") subs
            end) as [kept|e]; [|by exists e, s1].
  cbv zeta. exists TypeError, s1.
  rewrite Rooms_writeData_swapped; [done|].
  destruct (50 <? _)%nat; by rewrite !is_object_set.
Qed.

(** ** Subscriptions that are removed *)

Lemma without_endpoint_filter (endpoint : value) (subs : list value) :
  Forall (fun sub => nullish sub = false) subs ->
  without_endpoint endpoint subs
  = Ok (filter (fun sub => strict_eq (get sub "endpoint") endpoint = false) subs).
Proof.
  induction 1 as [|sub subs Hsub _ IH]; [done|].
  simpl. rewrite Hsub, IH. rewrite filter_cons.
  destruct (strict_eq (get sub "endpoint") endpoint) eqn:E.
  - by rewrite decide_False.
  - by rewrite decide_True.
Qed.

(** X12: [removeInvalidSubscription] on a stored room state.  The state is
    written back with the subscriptions whose endpoint is not the given
    one, in their order, and nothing else is changed; the state that was
    stored becomes the backup. *)
Theorem removeInvalidSubscription_removes (code : string) (endpoint data : value)
    (s : fs) (subs : list value) (p : list (string * value)) :
  s !! Rooms.dataFile_of code = Some (File (JsonText data)) ->
  valid_state data = true ->
  get data "pushSubscriptions" = VArr subs p ->
  Forall (fun sub => nullish sub = false) subs ->
  exists s' data',
    RoomsApi.removeInvalidSubscription no_faults (VStr code) endpoint s = (Ok tt, s') /\
    s' !! Rooms.dataFile_of code = Some (File (JsonText data')) /\
    get data' "pushSubscriptions"
    = VArr (filter (fun sub => strict_eq (get sub "endpoint") endpoint = false) subs)
           [] /\
    (forall k, k <> "pushSubscriptions" -> get data' k = get data k) /\
    s' !! backupFile (Rooms.dataFile_of code) = Some (File (JsonText data)).
Proof.
  intros Hdoc Hvalid Hsubs Hnull.
  destruct (valid_state_fields data Hvalid) as (Hobj & _ & Hl & _ & _ & _ & Hclean).
  set (kept := filter (fun sub => strict_eq (get sub "endpoint") endpoint = false) subs).
  set (data' := set data "pushSubscriptions" (VArr kept [])).
  assert (Hclean' : json_clean data' = true).
  { apply json_clean_set; try done; [by rewrite Hsubs|].
    destruct (json_clean_object data "pushSubscriptions" Hclean) as [f ->];
      [by rewrite Hsubs|].
    assert (Hs : json_clean (VArr subs p) = true).
    { rewrite <- Hsubs. apply json_clean_assoc_get; [done|].
      unfold get in Hsubs. by rewrite Hsubs. }
    apply json_clean_array in Hs as [Hs _].
    apply json_clean_array. split; [|done].
    apply Forall_forall. intros sub [_ Hsub]%list_elem_of_filter.
    by apply (proj1 (Forall_forall _ _) Hs). }
  destruct (writeData_at_ok (Rooms.dataFile_of code) data' s) as [s' Hw].
  { unfold data'. by rewrite is_object_set. }
  { unfold data'. rewrite get_set_ne by done. by destruct (get data "log"). }
  { unfold data'. rewrite get_set_ne by done. by destruct (get data "log"). }
  { by rewrite Hdoc. }
  exists s', data'.
  pose proof Hw as Hout. apply writeData_at_outcome in Hout as (_ & _ & Hok).
  destruct (Hok eq_refl) as (_ & _ & _ & _ & Hdoc' & _ & Hb & _).
  unfold JSON_stringify in Hdoc'. rewrite to_json_clean in Hdoc' by done.
  rewrite Hdoc in Hb.
  repeat split; try done.
  - unfold RoomsApi.removeInvalidSubscription, bind.
    rewrite (Rooms_readData_document no_faults code s data Hdoc Hobj).
    rewrite Rooms_coerce_valid by done. rewrite Hsubs.
    unfold lift. rewrite without_endpoint_filter by done.
    by rewrite Rooms_writeData_at.
  - by apply get_set_eq.
  - intros k Hk. by apply get_set_ne.
Qed.

Lemma removeInvalidSubscription_removes_witness :
  exists s' data',
    RoomsApi.removeInvalidSubscription no_faults (VStr "den")
      (VStr "https://push.example/1")
      {[ Rooms.dataFile_of "den" := File (JsonText two_subscriptions) ]}
    = (Ok tt, s') /\
    s' !! Rooms.dataFile_of "den" = Some (File (JsonText data')) /\
    get data' "pushSubscriptions"
    = VArr [VObj [("endpoint", VStr "https://push.example/2")]] [].
Proof.
  destruct (removeInvalidSubscription_removes "den" (VStr "https://push.example/1")
              two_subscriptions
              {[ Rooms.dataFile_of "den" := File (JsonText two_subscriptions) ]}
              _ [] (lookup_singleton_eq _ _) eq_refl eq_refl
              ltac:(by repeat constructor))
    as (s' & data' & Hrun & Hdoc & Hsubs & _).
  exists s', data'. repeat split; done.
Defined.

(** ** Access control *)

(** X13: what the access control lets through to the routes of [/api/].
    A request whose path starts with [/api/] goes on without an access
    code and without a user name, whatever its cookies and parameters are.
    The routes that read the room by [req.accessCode] then end in a
    [TypeError] and touch no file, and [/api/user-info] answers [Guest]. *)
Theorem api_requests_carry_no_code (req : request) (ft : faults) (now : Z) (s : fs) :
  String.prefix "/api/" (req_path req) = true ->
  exists accessCode username,
    accessControl req = Next accessCode username /\
    RoomsApi.counter ft accessCode s = (Uncaught TypeError, s) /\
    RoomsApi.buttonState ft accessCode now s = Some (Uncaught TypeError, s) /\
    RoomsApi.userInfo username = Reply 200 (VObj [("username", VStr "Guest")]).
Proof.
  intros Hapi. exists VUndefined, VUndefined.
  unfold accessControl. rewrite Hapi. done.
Qed.

Lemma api_requests_carry_no_code_witness :
  exists accessCode username,
    accessControl {| req_method := "GET"; req_path := "/api/counter";
                     query_access := Some "den";
                     cookies := {[ "accessCode" := "den"; "username" := "Ann" ]} |}
    = Next accessCode username /\
    RoomsApi.counter no_faults accessCode ∅ = (Uncaught TypeError, ∅).
Proof.
  destruct (api_requests_carry_no_code
              {| req_method := "GET"; req_path := "/api/counter";
                 query_access := Some "den";
                 cookies := {[ "accessCode" := "den"; "username" := "Ann" ]} |}
              no_faults 0 ∅ eq_refl)
    as (accessCode & username & Hpass & Hcounter & _).
  by exists accessCode, username.
Defined.

Lemma sanitizedCode_allowed (code : string) :
  forallb Rooms.allowed (list_ascii_of_string code) = true ->
  Rooms.sanitizedCode code = code.
Proof.
  induction code as [|c code IH]; simpl; [done|].
  intros [Hc Hrest]%andb_true_iff. by rewrite Hc, IH.
Qed.

Lemma valid_code_sanitized (code : string) :
  valid_code code = true -> Rooms.sanitizedCode code = code.
Proof.
  unfold valid_code. intros [_ Hall]%andb_true_iff.
  by apply sanitizedCode_allowed.
Qed.

(** X14: the access code that the access control hands to the routes.  When
    a request goes on with an access code, the code is the parameter
    [access] or the cookie [accessCode] of the request, it is not empty and
    has only letters, digits, underscores and dashes, so that the file name
    is made of the code as it is; and the user name is a string that is not
    empty. *)
Theorem accessControl_code (req : request) (accessCode username : value) :
  accessControl req = Next accessCode username ->
  accessCode <> VUndefined ->
  exists code name,
    accessCode = VStr code /\ username = VStr name /\
    (query_access req = Some code \/ cookies req !! "accessCode" = Some code) /\
    valid_code code = true /\
    Rooms.getDataFile accessCode = Ok ("counter-data-" ++ code ++ ".json") /\
    name <> "" /\
    (name = "Anonymous" \/ cookies req !! "username" = Some name).
Proof.
  unfold accessControl. intros Hpass Hcode.
  destruct (_ || _); [by injection Hpass as <- <-|].
  destruct (first_truthy (query_access req) (cookies req !! "accessCode"))
    as [code|] eqn:Hfirst; [|done].
  destruct (negb (String.eqb code "") && valid_code code) eqn:Hvalid; [|done].
  apply andb_true_iff in Hvalid as [_ Hvalid].
  injection Hpass as <- <-. eexists code, _. repeat split; try done.
  - unfold first_truthy in Hfirst.
    destruct (query_access req) as [x|]; [|by right].
    destruct (String.eqb x ""); [by right | by left].
  - simpl. unfold Rooms.dataFile_of. by rewrite valid_code_sanitized.
  - destruct (cookies req !! "username") as [name|]; [|done].
    destruct (String.eqb_spec name ""); done.
  - destruct (cookies req !! "username") as [name|]; [|by left].
    destruct (String.eqb_spec name ""); [by left | by right].
Qed.

Lemma accessControl_code_witness :
  exists code name,
    VStr "den" = VStr code /\ VStr "Ann" = VStr name /\
    valid_code code = true /\
    Rooms.getDataFile (VStr "den") = Ok ("counter-data-" ++ code ++ ".json").
Proof.
  assert (Hpass : accessControl
                    {| req_method := "GET"; req_path := "/";
                       query_access := Some "den";
                       cookies := {[ "username" := "Ann" ]} |}
                  = Next (VStr "den") (VStr "Ann")) by reflexivity.
  destruct (accessControl_code _ (VStr "den") (VStr "Ann") Hpass ltac:(done))
    as (code & name & Hcode & Hname & _ & Hvalid & Hfile & _).
  by exists code, name.
Defined.

(** X15: rooms whose codes pass the access control have files of their
    own.  Two codes of letters, digits, underscores and dashes that have
    the same data file are the same code; and the data file of one is not
    the backup or the temporary file of the other. *)
Theorem valid_codes_files (c1 c2 : string) :
  valid_code c1 = true -> valid_code c2 = true ->
  (Rooms.dataFile_of c1 = Rooms.dataFile_of c2 -> c1 = c2) /\
  Rooms.dataFile_of c1 <> backupFile (Rooms.dataFile_of c2) /\
  Rooms.dataFile_of c1 <> tempFile (Rooms.dataFile_of c2).
Proof.
  intros H1 H2. split; [|split].
  - intros Hfile%dataFile_of_inj.
    by rewrite !valid_code_sanitized in Hfile.
  - apply dataFile_not_backup.
  - apply dataFile_not_temp.
Qed.

Lemma valid_codes_files_witness :
  (Rooms.dataFile_of "den" = Rooms.dataFile_of "den-2" -> "den" = "den-2") /\
  Rooms.dataFile_of "den" <> backupFile (Rooms.dataFile_of "den-2") /\
  Rooms.dataFile_of "den" <> tempFile (Rooms.dataFile_of "den-2").
Proof. exact (valid_codes_files "den" "den-2" eq_refl eq_refl). Defined.

(** ** Login *)

Lemma length_substring (n : nat) (s : string) :
  String.length (String.substring 0 n s) <= n.
Proof.
  revert s. induction n as [|n IH]; intros [|c s]; simpl; try lia.
  specialize (IH s). lia.
Qed.

Lemma substring_all (n : nat) (s : string) :
  String.length s <= n -> String.substring 0 n s = s.
Proof.
  revert s. induction n as [|n IH]; intros [|c s]; simpl; try done; try lia.
  intros Hlen. rewrite IH; [done | lia].
Qed.

Lemma length_chars (s : string) :
  length (list_ascii_of_string s) = String.length s.
Proof. induction s as [|c s IH]; simpl; [done | by rewrite IH]. Qed.

Lemma length_of_chars (l : list ascii) :
  String.length (string_of_list_ascii l) = length l.
Proof. induction l as [|c l IH]; simpl; [done | by rewrite IH]. Qed.

Lemma filter_all {A : Type} (P : A -> Prop) `{forall x, Decision (P x)} (l : list A) :
  Forall P l -> filter P l = l.
Proof.
  induction 1 as [|x l Hx _ IH]; [done|].
  by rewrite filter_cons, decide_True, IH.
Qed.

Lemma cleanUsername_safe (username : string) :
  String.length (cleanUsername username) <= 50 /\
  Forall (fun c => unsafe_in_name c = false)
         (list_ascii_of_string (cleanUsername username)).
Proof.
  unfold cleanUsername. split.
  - rewrite length_of_chars.
    etransitivity; [apply length_filter|].
    rewrite length_chars. apply length_substring.
  - rewrite list_ascii_of_string_of_list_ascii.
    apply Forall_forall. by intros c [Hc _]%list_elem_of_filter.
Qed.

Lemma trimStart_head (l : list ascii) :
  (forall c, head l = Some c -> is_blank c = false) -> trimStart l = l.
Proof.
  destruct l as [|c l]; [done|]. simpl. intros Hc. by rewrite (Hc c).
Qed.

Lemma trim_tidy (name : string) :
  (forall c, head (list_ascii_of_string name) = Some c -> is_blank c = false) ->
  (forall c, last (list_ascii_of_string name) = Some c -> is_blank c = false) ->
  trim name = name.
Proof.
  intros Hhead Hlast. unfold trim. rewrite (trimStart_head _ Hhead).
  rewrite trimStart_head.
  - by rewrite rev_involutive, string_of_list_ascii_of_string.
  - intros c. destruct (list_ascii_of_string name) as [|x l] using rev_ind; [done|].
    rewrite rev_unit. simpl. intros [= ->]. apply Hlast. by rewrite last_snoc.
Qed.

(** X16: a login that succeeds, and the request that follows the redirect.
    The login succeeds only with a code of letters, digits, underscores and
    dashes and a name that is not blank; it redirects to the page of that
    code, and the name it stores has at most 50 characters and none of the
    angle brackets, quotes and ampersand.  The request to that page with
    the two cookies passes the access control with the same code, under
    the stored name, or as [Anonymous] when nothing of the name is left. *)
Theorem login_then_enter (accessCode username : option string)
    (code name location : string) (jar : gmap string string) :
  login accessCode username = LoggedIn code name location ->
  accessCode = Some code /\ valid_code code = true /\
  location = "/?access=" ++ code /\
  (exists typed, username = Some typed /\ trim typed <> "" /\
                 name = cleanUsername typed) /\
  String.length name <= 50 /\
  Forall (fun c => unsafe_in_name c = false) (list_ascii_of_string name) /\
  accessControl {| req_method := "GET"; req_path := "/";
                   query_access := Some code;
                   cookies := <["accessCode" := code]> (<["username" := name]> jar) |}
  = Next (VStr code) (VStr (if String.eqb name "" then "Anonymous" else name)).
Proof.
  unfold login. intros Hlogin.
  destruct accessCode as [code'|]; [|done].
  destruct (String.eqb_spec code' ""); [done|]. simpl orb in Hlogin.
  destruct (valid_code code') eqn:Hvalid; [|done]. simpl in Hlogin.
  destruct username as [typed|]; [|done].
  destruct (String.eqb typed "" || Nat.eqb (String.length (trim typed)) 0)
    eqn:Hblank; [done|].
  apply orb_false_iff in Hblank as [_ Hblank]. apply Nat.eqb_neq in Hblank.
  injection Hlogin as <- <- <-.
  destruct (cleanUsername_safe typed) as [Hlen Hsafe].
  repeat split; try done.
  - exists typed. split; [done|]. split; [|done].
    intros Htrim. by rewrite Htrim in Hblank.
  - unfold accessControl. simpl.
    destruct (String.eqb_spec code' ""); [done|]. simpl.
    rewrite Hvalid. simpl.
    rewrite lookup_insert_ne, lookup_insert_eq by done.
    by destruct (String.eqb_spec code' "").
Qed.

Lemma login_then_enter_witness :
  Some "den" = Some "den" /\ valid_code "den" = true /\
  "/?access=den" = "/?access=" ++ "den" /\
  accessControl {| req_method := "GET"; req_path := "/";
                   query_access := Some "den";
                   cookies := <["accessCode" := "den"]> (<["username" := "Ann"]> ∅) |}
  = Next (VStr "den") (VStr "Ann").
Proof.
  destruct (login_then_enter (Some "den") (Some "  <Ann>  ") "den" "Ann"
              "/?access=den" ∅ eq_refl)
    as (Hcode & Hvalid & Hlocation & _ & _ & _ & Henter).
  repeat split; done.
Defined.

(** X17: a name that the login stores as it was typed.  A name that has
    no white space at its ends, at most 50 characters and none of the
    characters that are removed is a fixed point of the cleaning. *)
Theorem cleanUsername_tidy (name : string) :
  (forall c, head (list_ascii_of_string name) = Some c -> is_blank c = false) ->
  (forall c, last (list_ascii_of_string name) = Some c -> is_blank c = false) ->
  String.length name <= 50 ->
  Forall (fun c => unsafe_in_name c = false) (list_ascii_of_string name) ->
  cleanUsername name = name.
Proof.
  intros Hhead Hlast Hlen Hsafe. unfold cleanUsername.
  rewrite trim_tidy, substring_all, filter_all by done.
  apply string_of_list_ascii_of_string.
Qed.

Lemma cleanUsername_tidy_witness : cleanUsername "Ann Lee" = "Ann Lee".
Proof.
  apply cleanUsername_tidy.
  - by intros c [= <-].
  - by intros c [= <-].
  - simpl. lia.
  - by repeat constructor.
Defined.

(** ** The rate limit after a deletion *)

(** One deletion from a state that is written as it is. *)
Lemma Single_deleteEntry_step (data : value) (s : fs) (c t : Z) (l : list value)
    (logId : string) (i : nat) (zs : list Z) :
  s !! Single.DATA_FILE = Some (File (JsonText data)) ->
  json_clean data = true ->
  get data "count" = VNum (Num c) ->
  get data "log" = VArr l [] ->
  get data "lastIncrementTime" = VNum (Num t) ->
  findIndex logId l = Ok (Some i) ->
  Forall2 numeric_id (delete i l) zs ->
  exists data' s' m,
    Single.deleteEntry no_faults logId s = Some (Json200 data', s') /\
    s' !! Single.DATA_FILE = Some (File (JsonText data')) /\
    json_clean data' = true /\
    get data' "count" = VNum (Num (Z.of_nat (length (delete i l)))) /\
    get data' "log" = VArr (delete i l) [] /\
    get data' "lastIncrementTime" = VNum (Num m) /\
    (zs = [] /\ m = 0%Z \/ m ∈ zs /\ Forall (fun z => (z <= m)%Z) zs).
Proof.
  intros Hdoc Hclean Hc Hl Ht Hfound Hids.
  assert (Hobj : is_object data = true) by (by apply (Single_state_is_object data c)).
  assert (exists m, recalculated (delete i l) = Some (Num m) /\
            (zs = [] /\ m = 0%Z \/ m ∈ zs /\ Forall (fun z => (z <= m)%Z) zs))
    as (m & Hrec & Hm).
  { destruct (delete i l) as [|e r] eqn:E.
    - exists 0%Z. split; [done|]. left. by inversion Hids.
    - destruct (recalculated_largest (e :: r) zs Hids) as (m & ? & ? & ?); [done|].
      exists m. auto. }
  pose proof (deleted_fields data i l [] (Num m) Hobj)
    as (Hobj' & Hl' & Hc' & Ht' & _).
  set (data' := deleted data i l [] (Num m)) in *.
  assert (Hclean' : json_clean data' = true).
  { destruct (json_clean_object data "count" Hclean) as [f ->]; [by rewrite Hc|].
    assert (Hlog : json_clean (VArr l []) = true).
    { rewrite <- Hl. apply json_clean_assoc_get; [done|].
      unfold get in Hl. by rewrite Hl. }
    apply json_clean_array in Hlog as [Hlog _].
    subst data'. unfold deleted, set.
    apply json_clean_assoc_set; [|done].
    apply json_clean_assoc_set; [|done].
    apply json_clean_assoc_set; [done|].
    apply json_clean_array. split; [|done].
    rewrite delete_take_drop. apply Forall_app. split.
    - by apply Forall_take.
    - by apply Forall_drop. }
  destruct (Single_writeData_ok data s Hdoc data' _ _ Hobj' Hl')
    as (s' & Hw & Hfile & _).
  unfold JSON_stringify in Hfile. rewrite to_json_clean in Hfile by done.
  exists data', s', m. split.
  { unfold Single.deleteEntry.
    by apply (deleteEntry_found _ _ data s
                (Single_readData_state data s c t l [] Hdoc Hc Hl Ht no_faults)
                logId l [] i (Num m) s'). }
  repeat split; done.
Qed.

(** X18: after a deletion the rate limit counts from an id.  After an
    increment at [now] and the deletion of the entry that it made, the time
    of the last increment is not [now]: it is the largest id that is left in
    the log, or 0 when nothing is left.  The next increment, at [now'], is
    made when 20 seconds have passed since that id, however soon it comes
    after the first increment, and is refused otherwise, with the seconds
    that remain counted from that id. *)
Theorem delete_resets_rate_limit (ft : faults) (data : value) (s : fs)
    (c t now now' id_now id_now' : Z) (timestamp timestamp' : string)
    (l : list value) (zs : list Z) :
  s !! Single.DATA_FILE = Some (File (JsonText data)) ->
  json_clean data = true ->
  get data "count" = VNum (Num c) ->
  get data "log" = VArr l [] ->
  get data "lastIncrementTime" = VNum (Num t) ->
  Forall2 numeric_id (take 19 l) zs ->
  (20000 <= now - t)%Z ->
  exists data1 s1 data2 s2 m,
    Single.increment no_faults now timestamp id_now s = Some (Json200 data1, s1) /\
    get data1 "lastIncrementTime" = VNum (Num now) /\
    Single.deleteEntry no_faults (toString id_now) s1 = Some (Json200 data2, s2) /\
    get data2 "lastIncrementTime" = VNum (Num m) /\
    (zs = [] /\ m = 0%Z \/ m ∈ zs /\ Forall (fun z => (z <= m)%Z) zs) /\
    ((20000 <= now' - m)%Z ->
     exists data3 s3,
       Single.increment no_faults now' timestamp' id_now' s2
       = Some (Json200 data3, s3) /\
       get data3 "count" = VNum (Num (Z.of_nat (Nat.min 19 (length l)) + 1)) /\
       get data3 "lastIncrementTime" = VNum (Num now')) /\
    ((now' - m < 20000)%Z ->
     Single.increment ft now' timestamp' id_now' s2
     = Some (RateLimited429 (Num (ceil_div (20000 - (now' - m)) 1000)), s2)).
Proof.
  intros Hdoc Hclean Hc Hl Ht Hids Hge.
  destruct (Single_increment_step data s c t now id_now timestamp l
              Hdoc Hclean Hc Hl Ht Hge)
    as (data1 & s1 & Hinc & Hdoc1 & _ & Hclean1 & Hc1 & Hl1 & Ht1 & _).
  set (entry := VObj [("id", VStr (toString id_now)); ("timestamp", VStr timestamp);
                      ("count", VNum (Num (c + 1)))]) in *.
  change (take 20 (entry :: l)) with (entry :: take 19 l) in Hl1.
  assert (Hfound : findIndex (toString id_now) (entry :: take 19 l) = Ok (Some 0%nat)).
  { simpl. unfold id_is. simpl. by rewrite String.eqb_refl. }
  destruct (Single_deleteEntry_step data1 s1 (c + 1) now (entry :: take 19 l)
              (toString id_now) 0 zs Hdoc1 Hclean1 Hc1 Hl1 Ht1 Hfound Hids)
    as (data2 & s2 & m & Hdel & Hdoc2 & Hclean2 & Hc2 & Hl2 & Ht2 & Hm).
  change (delete 0%nat (entry :: take 19 l)) with (take 19 l) in *.
  exists data1, s1, data2, s2, m. repeat split; try done.
  - intros Hge'.
    destruct (Single_increment_step data2 s2 _ m now' id_now' timestamp' (take 19 l)
                Hdoc2 Hclean2 Hc2 Hl2 Ht2 Hge')
      as (data3 & s3 & Hinc3 & _ & _ & _ & Hc3 & _ & Ht3 & _).
    exists data3, s3. rewrite length_take in Hc3. done.
  - intros Hlt.
    by apply (Single_increment_rate_limited data2 s2 (Z.of_nat (length (take 19 l))) m
                (take 19 l) []).
Qed.

(** Readings of the clock one millisecond apart: the second increment comes
    one millisecond after the first and is made, since the ids that are
    left are 20 seconds old. *)
Lemma delete_resets_rate_limit_witness :
  exists data1 s1 data2 s2 data3 s3,
    Single.increment no_faults 1700000040000 "t3" 1700000040000
      {[ Single.DATA_FILE := File (JsonText two_entries) ]}
    = Some (Json200 data1, s1) /\
    Single.deleteEntry no_faults "1700000040000" s1 = Some (Json200 data2, s2) /\
    get data2 "lastIncrementTime" = VNum (Num 1700000020000) /\
    Single.increment no_faults 1700000040001 "t4" 1700000040001 s2
    = Some (Json200 data3, s3) /\
    get data3 "count" = VNum (Num 3).
Proof.
  destruct (delete_resets_rate_limit no_faults two_entries
              {[ Single.DATA_FILE := File (JsonText two_entries) ]}
              2 1700000020000 1700000040000 1700000040001
              1700000040000 1700000040001 "t3" "t4" _
              [1700000020000; 1700000000000]%Z
              (lookup_singleton_eq _ _) eq_refl eq_refl eq_refl eq_refl
              ltac:(repeat constructor; eexists; split; reflexivity)
              ltac:(lia))
    as (data1 & s1 & data2 & s2 & m & H1 & _ & H2 & Ht2 & Hm & Hmade & _).
  assert (Hmax : m = 1700000020000%Z).
  { destruct Hm as [[? _]|[Hin Hall]]; [done|].
    apply Forall_cons in Hall as [Hfirst _].
    apply elem_of_cons in Hin as [->|Hin]; [done|].
    apply elem_of_cons in Hin as [->|Hin]; [lia|].
    by apply elem_of_nil in Hin. }
  subst m.
  destruct (Hmade ltac:(lia)) as (data3 & s3 & H3 & Hc3 & _).
  by exists data1, s1, data2, s2, data3, s3.
Defined.
